(** * Sequence contexts of the inference pipeline

    A shallow embedding of [max/pipelines/context.py]: the token buffer
    with its chunked growth, the start/active/end cursors, the completion
    window, the log-probability ledger, and the operations the scheduler
    drives a context with.  Every operation is a function from the
    context before the call to the outcome of the call and the context
    after it; a Python exception leaves the mutations made before it in
    place, exactly as the object would keep them. *)

From stdpp Require Import base numbers option list strings gmap.

Local Open Scope Z_scope.

(** ** Exceptions and outcomes *)

Inductive exn : Type :=
| ValueError
| IndexError
| AssertionError.

Inductive outcome (A : Type) : Type :=
| Returned (a : A)
| Raised (e : exn).

Arguments Returned {A} a.
Arguments Raised {A} e.

Definition returned {A} (r : outcome A) : bool :=
  match r with Returned _ => true | Raised _ => false end.

(** ** The numpy and Python primitives the module relies on *)

Definition CHUNK_SIZE : Z := 128.

(** [np.ceil(a / b)] on integers.  The source divides in floating point;
    dividing a length below 2^53 by 128 is exact there, so the float
    detour is the integer ceiling. *)
Definition ceil_div (a b : Z) : Z := - ((- a) / b).

(** An array as handed to the constructor: its shape and its flat data
    (as many elements as the shape says).  Token ids are integers; the
    range of the array's dtype is not modelled. *)
Record ndarray : Type := mk_ndarray {
  nd_shape : list nat;
  nd_data : list Z
}.

Definition ndim (a : ndarray) : nat := length (nd_shape a).

(** [len(a)]: the extent of the first axis. *)
Definition np_len (a : ndarray) : Z := Z.of_nat (hd 0%nat (nd_shape a)).

Definition np_zeros (n : Z) : list Z := replicate (Z.to_nat n) 0.

(** Integer indexing of a one-dimensional array of length [n]: an index in
    [0, n) is taken as it is, one in [-n, 0) counts from the end, anything
    else is an [IndexError] ([None]). *)
Definition np_index (a : list Z) (i : Z) : option nat :=
  let n := Z.of_nat (length a) in
  if (0 <=? i) && (i <? n) then Some (Z.to_nat i)
  else if (- n <=? i) && (i <? 0) then Some (Z.to_nat (i + n))
  else None.

Definition np_getitem (a : list Z) (i : Z) : option Z :=
  match np_index a i with
  | Some k => a !! k
  | None => None
  end.

Definition np_setitem (a : list Z) (i : Z) (v : Z) : option (list Z) :=
  match np_index a i with
  | Some k => Some (<[k := v]> a)
  | None => None
  end.

(** [np.resize(a, n)]: the first [n] elements of [a] repeated as often as
    needed; zeros when [a] is empty. *)
Definition np_resize (a : list Z) (n : Z) : list Z :=
  match a with
  | [] => np_zeros n
  | _ :: _ =>
      (fun k : nat => a !!! (k mod length a)%nat) <$> seq 0 (Z.to_nat n)
  end.

(** [a[lo:hi]] with Python's clamping of slice bounds. *)
Definition py_slice_bound (n i : Z) : Z :=
  if i <? 0 then Z.max (i + n) 0 else Z.min i n.

Definition py_slice (a : list Z) (lo hi : Z) : list Z :=
  let n := Z.of_nat (length a) in
  let lo' := py_slice_bound n lo in
  let hi' := py_slice_bound n hi in
  take (Z.to_nat (hi' - lo')) (drop (Z.to_nat lo') a).

(** [a[:n] = src] for a source of exactly [n] elements. *)
Definition np_assign_prefix (a : list Z) (src : list Z) : list Z :=
  src ++ drop (length src) a.

(** [range(lo, hi)]. *)
Definition py_range (lo hi : Z) : list Z := seqZ lo (hi - lo).

(** [x if x else 0] on an optional integer: [None] and [0] are both falsy. *)
Definition or_zero (x : option Z) : Z :=
  match x with
  | Some v => if v =? 0 then 0 else v
  | None => 0
  end.

(** ** The context *)

Section Context.

(** The log-probability record comes from [.interfaces], the grammar
    matcher from the [xgr] package; the module only tests them for
    truthiness, stores them, and calls [accept_token] on the matcher,
    which answers whether the token was legal and moves the automaton. *)
Variable LogProbabilities : Type.
Variable lp_truthy : LogProbabilities -> bool.
Variable Matcher : Type.
Variable matcher_truthy : Matcher -> bool.
Variable accept_token : Matcher -> Z -> bool * Matcher.
(** The values of [extra_model_args]. *)
Variable Any : Type.

Record TextContext : Type := mkTextContext {
  cache_seq_id : Z;
  prompt : string + list Z;
  max_length : option Z;
  size : Z;
  tokens : list Z;
  active_idx : Z;
  start_idx : Z;
  end_idx : Z;
  completion_start_idx : Z;
  completion_end_idx : Z;
  log_probabilities : Z;
  log_probabilities_echo : bool;
  log_probabilities_data : gmap Z LogProbabilities;
  matcher : option Matcher;
  json_schema : option string;
  is_initial_prompt : bool
}.

(** Attribute assignments [self.x = v]. *)

Definition set_buffer (n : Z) (buf : list Z) (c : TextContext) : TextContext :=
  mkTextContext (cache_seq_id c) (prompt c) (max_length c) n buf
    (active_idx c) (start_idx c) (end_idx c)
    (completion_start_idx c) (completion_end_idx c)
    (log_probabilities c) (log_probabilities_echo c)
    (log_probabilities_data c) (matcher c) (json_schema c)
    (is_initial_prompt c).

Definition set_active_idx (v : Z) (c : TextContext) : TextContext :=
  mkTextContext (cache_seq_id c) (prompt c) (max_length c) (size c) (tokens c)
    v (start_idx c) (end_idx c)
    (completion_start_idx c) (completion_end_idx c)
    (log_probabilities c) (log_probabilities_echo c)
    (log_probabilities_data c) (matcher c) (json_schema c)
    (is_initial_prompt c).

Definition set_start_idx (v : Z) (c : TextContext) : TextContext :=
  mkTextContext (cache_seq_id c) (prompt c) (max_length c) (size c) (tokens c)
    (active_idx c) v (end_idx c)
    (completion_start_idx c) (completion_end_idx c)
    (log_probabilities c) (log_probabilities_echo c)
    (log_probabilities_data c) (matcher c) (json_schema c)
    (is_initial_prompt c).

Definition set_end_idx (v : Z) (c : TextContext) : TextContext :=
  mkTextContext (cache_seq_id c) (prompt c) (max_length c) (size c) (tokens c)
    (active_idx c) (start_idx c) v
    (completion_start_idx c) (completion_end_idx c)
    (log_probabilities c) (log_probabilities_echo c)
    (log_probabilities_data c) (matcher c) (json_schema c)
    (is_initial_prompt c).

Definition set_completion_start_idx (v : Z) (c : TextContext) : TextContext :=
  mkTextContext (cache_seq_id c) (prompt c) (max_length c) (size c) (tokens c)
    (active_idx c) (start_idx c) (end_idx c)
    v (completion_end_idx c)
    (log_probabilities c) (log_probabilities_echo c)
    (log_probabilities_data c) (matcher c) (json_schema c)
    (is_initial_prompt c).

Definition set_completion_end_idx (v : Z) (c : TextContext) : TextContext :=
  mkTextContext (cache_seq_id c) (prompt c) (max_length c) (size c) (tokens c)
    (active_idx c) (start_idx c) (end_idx c)
    (completion_start_idx c) v
    (log_probabilities c) (log_probabilities_echo c)
    (log_probabilities_data c) (matcher c) (json_schema c)
    (is_initial_prompt c).

Definition set_log_probabilities_data (d : gmap Z LogProbabilities)
    (c : TextContext) : TextContext :=
  mkTextContext (cache_seq_id c) (prompt c) (max_length c) (size c) (tokens c)
    (active_idx c) (start_idx c) (end_idx c)
    (completion_start_idx c) (completion_end_idx c)
    (log_probabilities c) (log_probabilities_echo c)
    d (matcher c) (json_schema c)
    (is_initial_prompt c).

Definition set_matcher_field (m : option Matcher) (c : TextContext) : TextContext :=
  mkTextContext (cache_seq_id c) (prompt c) (max_length c) (size c) (tokens c)
    (active_idx c) (start_idx c) (end_idx c)
    (completion_start_idx c) (completion_end_idx c)
    (log_probabilities c) (log_probabilities_echo c)
    (log_probabilities_data c) m (json_schema c)
    (is_initial_prompt c).

Definition set_is_initial_prompt (b : bool) (c : TextContext) : TextContext :=
  mkTextContext (cache_seq_id c) (prompt c) (max_length c) (size c) (tokens c)
    (active_idx c) (start_idx c) (end_idx c)
    (completion_start_idx c) (completion_end_idx c)
    (log_probabilities c) (log_probabilities_echo c)
    (log_probabilities_data c) (matcher c) (json_schema c)
    b.

(** [TextContext.__init__]. *)
Definition TextContext_init (cache_seq_id : Z) (prompt : string + list Z)
    (max_length : option Z) (tokens : ndarray) (log_probabilities : Z)
    (log_probabilities_echo : bool) (json_schema : option string)
    : outcome TextContext :=
  if negb (ndim tokens =? 1)%nat then Raised ValueError
  else
    let size := ceil_div (np_len tokens) CHUNK_SIZE * CHUNK_SIZE in
    if negb (np_len tokens <=? size) then Raised AssertionError
    else
      let buf := np_assign_prefix (np_zeros size) (nd_data tokens) in
      let n := np_len tokens in
      Returned (mkTextContext cache_seq_id prompt max_length size buf
                  n 0 n n n
                  log_probabilities log_probabilities_echo ∅
                  None json_schema true).

(** [TextContext.set_matcher]. *)
Definition set_matcher (m : Matcher) (c : TextContext) : TextContext :=
  set_matcher_field (Some m) c.

(** The properties [current_length], [active_length] and [next_tokens]. *)
Definition current_length (c : TextContext) : Z := end_idx c.

Definition active_length (c : TextContext) : Z := active_idx c - start_idx c.

Definition next_tokens (c : TextContext) : list Z :=
  py_slice (tokens c) (start_idx c) (active_idx c).

(** [TextContext.bump_token_indices]. *)
Definition bump_token_indices (d_start d_active d_end : option Z)
    (c : TextContext) : outcome unit * TextContext :=
  let new_start_idx := or_zero d_start + start_idx c in
  let new_active_idx := or_zero d_active + active_idx c in
  let new_end_idx := or_zero d_end + end_idx c in
  if new_start_idx >=? new_active_idx then (Raised ValueError, c)
  else if new_active_idx >? new_end_idx then (Raised ValueError, c)
  else
    (Returned tt,
     set_end_idx new_end_idx
       (set_active_idx new_active_idx
          (set_start_idx new_start_idx c))).

(** [TextContext._upsize]. *)
Definition _upsize (c : TextContext) : TextContext :=
  if end_idx c >=? size c then
    let n := size c + CHUNK_SIZE in
    set_buffer n (np_resize (tokens c) n) c
  else c.

(** [if self.matcher: assert self.matcher.accept_token(new_token)],
    followed by [self.is_initial_prompt = False]; the tail shared by
    [update] and [jump_ahead].  Assertions are taken to be enabled: a
    rejected token raises after the automaton has seen it. *)
Definition accept_and_finish (new_token : Z) (c : TextContext)
    : outcome unit * TextContext :=
  match matcher c with
  | Some m =>
      if matcher_truthy m then
        let '(ok, m') := accept_token m new_token in
        let c' := set_matcher_field (Some m') c in
        if ok then (Returned tt, set_is_initial_prompt false c')
        else (Raised AssertionError, c')
      else (Returned tt, set_is_initial_prompt false c)
  | None => (Returned tt, set_is_initial_prompt false c)
  end.

(** [TextContext.update]. *)
Definition update (new_token : Z) (lp : option LogProbabilities)
    (is_eos : bool) (c : TextContext) : outcome unit * TextContext :=
  if active_idx c <? end_idx c then
    let c1 := set_start_idx (active_idx c) c in
    (Returned tt, set_active_idx (end_idx c1) c1)
  else
    let c1 := _upsize c in
    match np_setitem (tokens c1) (active_idx c1) new_token with
    | None => (Raised IndexError, c1)
    | Some buf =>
        let c2 := set_buffer (size c1) buf c1 in
        let c3 :=
          match lp with
          | Some l =>
              if lp_truthy l then
                set_log_probabilities_data
                  (<[active_idx c2 := l]> (log_probabilities_data c2)) c2
              else c2
          | None => c2
          end in
        let c4 := set_start_idx (active_idx c3) c3 in
        let c5 := set_active_idx (active_idx c4 + 1) c4 in
        let c6 := set_end_idx (end_idx c5 + 1) c5 in
        let c7 :=
          if negb is_eos then
            set_completion_end_idx (completion_end_idx c6 + 1) c6
          else c6 in
        accept_and_finish new_token c7
    end.

(** [TextContext.jump_ahead]. *)
Definition jump_ahead (new_token : Z) (c : TextContext)
    : outcome unit * TextContext :=
  let c1 := _upsize c in
  match np_setitem (tokens c1) (active_idx c1) new_token with
  | None => (Raised IndexError, c1)
  | Some buf =>
      let c2 := set_buffer (size c1) buf c1 in
      let c3 := set_active_idx (active_idx c2 + 1) c2 in
      let c4 := set_end_idx (end_idx c3 + 1) c3 in
      let c5 := set_completion_end_idx (completion_end_idx c4 + 1) c4 in
      accept_and_finish new_token c5
  end.

(** [TextContext.reset]. *)
Definition reset (c : TextContext) : TextContext :=
  set_is_initial_prompt true (set_start_idx 0 c).

(** The loop of [outstanding_completion_tokens]: for each index the
    token is read first (an index outside the buffer raises there), then
    the ledger entry is popped. *)
Fixpoint drain_loop (idxs : list Z) (buf : list Z)
    (ledger : gmap Z LogProbabilities)
    (res : list (Z * option LogProbabilities))
    : outcome (list (Z * option LogProbabilities)) * gmap Z LogProbabilities :=
  match idxs with
  | [] => (Returned res, ledger)
  | i :: rest =>
      match np_getitem buf i with
      | None => (Raised IndexError, ledger)
      | Some t =>
          drain_loop rest buf (delete i ledger) (res ++ [(t, ledger !! i)])
      end
  end.

(** [TextContext.outstanding_completion_tokens]. *)
Definition outstanding_completion_tokens (c : TextContext)
    : outcome (list (Z * option LogProbabilities)) * TextContext :=
  let idxs := py_range (completion_start_idx c) (completion_end_idx c) in
  match drain_loop idxs (tokens c) (log_probabilities_data c) [] with
  | (Returned res, ledger) =>
      let c1 := set_log_probabilities_data ledger c in
      (Returned res, set_completion_start_idx (completion_end_idx c1) c1)
  | (Raised e, ledger) => (Raised e, set_log_probabilities_data ledger c)
  end.

(** ** The vision variant *)

Record TextAndVisionContext : Type := mkTextAndVisionContext {
  base : TextContext;
  pixel_values : list ndarray;
  extra_model_args : gmap string Any
}.

(** [TextAndVisionContext.__init__]. *)
Definition TextAndVisionContext_init (cache_seq_id : Z)
    (prompt : string + list Z) (max_length : option Z) (tokens : ndarray)
    (pixel_values : list ndarray) (extra_model_args : gmap string Any)
    (log_probabilities : Z) (log_probabilities_echo : bool)
    (json_schema : option string) : outcome TextAndVisionContext :=
  match TextContext_init cache_seq_id prompt max_length tokens
          log_probabilities log_probabilities_echo json_schema with
  | Returned b => Returned (mkTextAndVisionContext b pixel_values extra_model_args)
  | Raised e => Raised e
  end.

(** [TextAndVisionContext.update]: the inherited update, then
    [self.pixel_values = ()] when that returned. *)
Definition vision_update (new_token : Z) (lp : option LogProbabilities)
    (is_eos : bool) (v : TextAndVisionContext)
    : outcome unit * TextAndVisionContext :=
  match update new_token lp is_eos (base v) with
  | (Returned _, b) =>
      (Returned tt, mkTextAndVisionContext b [] (extra_model_args v))
  | (Raised e, b) =>
      (Raised e, mkTextAndVisionContext b (pixel_values v) (extra_model_args v))
  end.

(** ** Call sequences *)

(** The public operations a scheduler may call on a context. *)
Inductive op : Type :=
| OpUpdate (new_token : Z) (lp : option LogProbabilities) (is_eos : bool)
| OpJumpAhead (new_token : Z)
| OpBump (d_start d_active d_end : option Z)
| OpReset
| OpDrain
| OpSetMatcher (m : Matcher).

(** One call: the context after it (also when the call raised), and, for
    an [outstanding_completion_tokens] call that returned, the buffer
    positions whose tokens it returned. *)
Definition step (o : op) (c : TextContext) : TextContext * option (list Z) :=
  match o with
  | OpUpdate t lp e => ((update t lp e c).2, None)
  | OpJumpAhead t => ((jump_ahead t c).2, None)
  | OpBump a b d => ((bump_token_indices a b d c).2, None)
  | OpReset => (reset c, None)
  | OpDrain =>
      let '(r, c') := outstanding_completion_tokens c in
      (c', if returned r
           then Some (py_range (completion_start_idx c) (completion_end_idx c))
           else None)
  | OpSetMatcher m => (set_matcher m c, None)
  end.

Definition exec (o : op) (c : TextContext) : TextContext := (step o c).1.

Fixpoint run (ops : list op) (c : TextContext) : TextContext :=
  match ops with
  | [] => c
  | o :: rest => run rest (exec o c)
  end.

(** The contexts after each call of a sequence, in order. *)
Fixpoint states (ops : list op) (c : TextContext) : list TextContext :=
  match ops with
  | [] => []
  | o :: rest => exec o c :: states rest (exec o c)
  end.

(** The position lists returned by the drains of a sequence, in order. *)
Fixpoint drains (ops : list op) (c : TextContext) : list (list Z) :=
  match ops with
  | [] => []
  | o :: rest =>
      match (step o c).2 with
      | Some ps => ps :: drains rest (exec o c)
      | None => drains rest (exec o c)
      end
  end.

(** ** Invariants *)

(** The index-window invariants of the data model. *)
Definition Inv (c : TextContext) : Prop :=
  0 <= start_idx c /\ start_idx c <= active_idx c /\
  active_idx c <= end_idx c /\ end_idx c <= size c /\
  size c mod CHUNK_SIZE = 0 /\
  completion_start_idx c <= completion_end_idx c /\
  completion_end_idx c <= end_idx c.

(** The part of them that no call can break. *)
Definition Inv_core (c : TextContext) : Prop :=
  active_idx c <= end_idx c /\
  size c mod CHUNK_SIZE = 0 /\
  completion_start_idx c <= completion_end_idx c.

(** The buffer is as long as [size] says. *)
Definition buffer_ok (c : TextContext) : Prop :=
  Z.of_nat (length (tokens c)) = size c.

(** A bump whose committed cursors stay inside the buffer and do not fall
    behind the completion window. *)
Definition bump_in_bounds (o : op) (c : TextContext) : bool :=
  match o with
  | OpBump _ _ _ =>
      let c' := exec o c in
      (0 <=? start_idx c') && (end_idx c' <=? size c')
      && (completion_end_idx c' <=? end_idx c')
  | _ => true
  end.

Fixpoint bumps_in_bounds (ops : list op) (c : TextContext) : bool :=
  match ops with
  | [] => true
  | o :: rest => bump_in_bounds o c && bumps_in_bounds rest (exec o c)
  end.

(** A call that appends a token to the sequence: [jump_ahead], and
    [update] outside chunked prefill. *)
Definition appends (o : op) (c : TextContext) : bool :=
  match o with
  | OpUpdate _ _ _ => negb (active_idx c <? end_idx c)
  | OpJumpAhead _ => true
  | _ => false
  end.

Fixpoint no_append (ops : list op) (c : TextContext) : bool :=
  match ops with
  | [] => true
  | o :: rest => negb (appends o c) && no_append rest (exec o c)
  end.

(** Call sequences on the vision variant: [update] is the overriding
    one, every other call is inherited and acts on the base fields. *)
Definition vision_exec (o : op) (v : TextAndVisionContext)
    : TextAndVisionContext :=
  match o with
  | OpUpdate t lp e => (vision_update t lp e v).2
  | _ => mkTextAndVisionContext (exec o (base v)) (pixel_values v)
           (extra_model_args v)
  end.

Fixpoint vision_run (ops : list op) (v : TextAndVisionContext)
    : TextAndVisionContext :=
  match ops with
  | [] => v
  | o :: rest => vision_run rest (vision_exec o v)
  end.

(** * Properties *)

(** The construction arguments that no call changes. *)
Definition same_request (c c' : TextContext) : Prop :=
  cache_seq_id c' = cache_seq_id c /\ prompt c' = prompt c /\
  max_length c' = max_length c /\
  log_probabilities c' = log_probabilities c /\
  log_probabilities_echo c' = log_probabilities_echo c /\
  json_schema c' = json_schema c.

Lemma same_request_refl c : same_request c c.
Proof. by repeat split. Qed.

(** ** Arithmetic of the primitives *)

Lemma or_zero_default (x : option Z) : or_zero x = default 0 x.
Proof.
  destruct x as [v|]; simpl; [|done].
  destruct (Z.eqb_spec v 0); congruence.
Qed.

Lemma ceil_div_chunk_bounds (n : Z) :
  n <= ceil_div n CHUNK_SIZE * CHUNK_SIZE < n + CHUNK_SIZE.
Proof.
  unfold ceil_div, CHUNK_SIZE.
  pose proof (Z.div_mod (- n) 128 ltac:(lia)) as Hdm.
  pose proof (Z.mod_pos_bound (- n) 128 ltac:(lia)) as Hb.
  lia.
Qed.

Lemma ceil_div_chunk_multiple (n : Z) :
  (ceil_div n CHUNK_SIZE * CHUNK_SIZE) mod CHUNK_SIZE = 0.
Proof. apply Z.mod_mul. done. Qed.

Lemma length_np_zeros (n : Z) : 0 <= n -> Z.of_nat (length (np_zeros n)) = n.
Proof. intros. unfold np_zeros. rewrite length_replicate. lia. Qed.

Lemma py_slice_prefix (a : list Z) (n : Z) :
  0 <= n <= Z.of_nat (length a) ->
  py_slice a 0 n = take (Z.to_nat n) a.
Proof.
  intros Hn. unfold py_slice, py_slice_bound.
  destruct (Z.ltb_spec 0 0); [lia|].
  destruct (Z.ltb_spec n 0); [lia|].
  rewrite (Z.min_l 0) by lia. rewrite (Z.min_l n) by lia.
  rewrite Z.sub_0_r. simpl. by rewrite drop_0.
Qed.

(** ** Construction *)

(** C8: a one-dimensional prompt array of length [L] is accepted, and the
    context built from it has active length [L], current length [L], the
    prompt itself as its next tokens, and a buffer whose capacity is
    [ceil(L / 128) * 128], the least multiple of 128 that holds the
    prompt; 130 tokens give capacity 256 and 128 tokens give 128. *)
Theorem TextContext_init_roundtrip (id : Z) (p : string + list Z)
    (ml : option Z) (t : ndarray) (k : Z) (echo : bool) (js : option string)
    (L : nat) :
  nd_shape t = [L] ->
  length (nd_data t) = L ->
  exists c,
    TextContext_init id p ml t k echo js = Returned c /\
    active_length c = Z.of_nat L /\
    current_length c = Z.of_nat L /\
    next_tokens c = nd_data t /\
    size c = ceil_div (Z.of_nat L) 128 * 128 /\
    Z.of_nat L <= size c < Z.of_nat L + 128 /\
    size c mod 128 = 0 /\
    Z.of_nat (length (tokens c)) = size c /\
    ceil_div 130 128 * 128 = 256 /\
    ceil_div 128 128 * 128 = 128.
Proof.
  intros Hshape Hlen.
  pose proof (ceil_div_chunk_bounds (Z.of_nat L)) as Hb.
  pose proof (ceil_div_chunk_multiple (Z.of_nat L)) as Hm.
  unfold TextContext_init, ndim, np_len. rewrite Hshape. simpl.
  destruct (Z.leb_spec (Z.of_nat L) (ceil_div (Z.of_nat L) CHUNK_SIZE * CHUNK_SIZE))
    as [Hle|Hgt]; [|lia].
  simpl. eexists. split; [reflexivity|].
  set (sz := ceil_div (Z.of_nat L) CHUNK_SIZE * CHUNK_SIZE) in *.
  assert (Hbuf : Z.of_nat (length (np_assign_prefix (np_zeros sz) (nd_data t))) = sz).
  { unfold np_assign_prefix. rewrite length_app, length_drop.
    pose proof (length_np_zeros sz ltac:(lia)). lia. }
  unfold active_length, current_length, next_tokens. simpl.
  repeat split; try (unfold CHUNK_SIZE in *; lia); try done.
  rewrite py_slice_prefix by lia.
  unfold np_assign_prefix. rewrite Nat2Z.id, <- Hlen.
  apply take_app_length.
Qed.

(** ** Chunked prefill *)

(** C2: while [active_idx < end_idx], [update] returns after moving
    [start_idx] to the old [active_idx] and [active_idx] to [end_idx];
    the token, the log-probabilities and the end-of-sequence flag play no
    part, and the buffer, its capacity, [end_idx], the completion window,
    the ledger, the matcher and every other field stay as they were. *)
Theorem update_chunked_prefill (new_token : Z) (lp : option LogProbabilities)
    (is_eos : bool) (c : TextContext) :
  active_idx c < end_idx c ->
  let r := update new_token lp is_eos c in
  r.1 = Returned tt /\
  start_idx r.2 = active_idx c /\
  active_idx r.2 = end_idx c /\
  end_idx r.2 = end_idx c /\
  completion_start_idx r.2 = completion_start_idx c /\
  completion_end_idx r.2 = completion_end_idx c /\
  size r.2 = size c /\
  tokens r.2 = tokens c /\
  log_probabilities_data r.2 = log_probabilities_data c /\
  matcher r.2 = matcher c /\
  is_initial_prompt r.2 = is_initial_prompt c /\
  same_request c r.2.
Proof.
  intros Hlt. unfold update.
  destruct (Z.ltb_spec (active_idx c) (end_idx c)); [|lia].
  simpl. by repeat split.
Qed.

(** ** Index bumps *)

(** C4: with [new_start], [new_active] and [new_end] the cursors plus
    their deltas (an omitted delta is zero), [bump_token_indices] raises
    exactly when [new_start >= new_active] or [new_active > new_end], and
    then the context is the one before the call; otherwise it returns
    with the three cursors set to the new values and nothing else
    changed. *)
Theorem bump_token_indices_spec (d_start d_active d_end : option Z)
    (c : TextContext) :
  let new_start := start_idx c + default 0 d_start in
  let new_active := active_idx c + default 0 d_active in
  let new_end := end_idx c + default 0 d_end in
  match bump_token_indices d_start d_active d_end c with
  | (Raised e, c') =>
      e = ValueError /\
      (new_start >= new_active \/ new_active > new_end) /\
      c' = c
  | (Returned _, c') =>
      new_start < new_active <= new_end /\
      start_idx c' = new_start /\
      active_idx c' = new_active /\
      end_idx c' = new_end /\
      completion_start_idx c' = completion_start_idx c /\
      completion_end_idx c' = completion_end_idx c /\
      size c' = size c /\
      tokens c' = tokens c /\
      log_probabilities_data c' = log_probabilities_data c /\
      matcher c' = matcher c /\
      is_initial_prompt c' = is_initial_prompt c /\
      same_request c c'
  end.
Proof.
  unfold bump_token_indices. rewrite !or_zero_default.
  destruct (Z.geb_spec (default 0 d_start + start_idx c)
              (default 0 d_active + active_idx c)).
  { split; [done|]. split; [left; lia|done]. }
  destruct (Z.gtb_spec (default 0 d_active + active_idx c)
              (default 0 d_end + end_idx c)).
  { split; [done|]. split; [right; lia|done]. }
  simpl. repeat split; lia.
Qed.

(** ** Reset *)

(** C6, as the code has it: [reset] sets [start_idx] to 0 and
    [is_initial_prompt] to true and leaves every other field alone; the
    next tokens are then the buffer slice from 0 to [active_idx], which
    is the slice from 0 to [end_idx] when [active_idx = end_idx]. *)
Theorem reset_spec (c : TextContext) :
  start_idx (reset c) = 0 /\
  is_initial_prompt (reset c) = true /\
  active_idx (reset c) = active_idx c /\
  end_idx (reset c) = end_idx c /\
  completion_start_idx (reset c) = completion_start_idx c /\
  completion_end_idx (reset c) = completion_end_idx c /\
  size (reset c) = size c /\
  tokens (reset c) = tokens c /\
  log_probabilities_data (reset c) = log_probabilities_data c /\
  matcher (reset c) = matcher c /\
  same_request c (reset c) /\
  next_tokens (reset c) = py_slice (tokens c) 0 (active_idx c) /\
  (active_idx c = end_idx c ->
   next_tokens (reset c) = py_slice (tokens c) 0 (end_idx c)).
Proof.
  unfold reset, next_tokens. simpl.
  repeat split; try done. by intros ->.
Qed.

(** ** Buffer growth and writes *)

Lemma length_np_resize (a : list Z) (n : Z) :
  0 <= n -> Z.of_nat (length (np_resize a n)) = n.
Proof.
  intros Hn. destruct a as [|x a]; simpl.
  - by apply length_np_zeros.
  - rewrite length_fmap, length_seq. lia.
Qed.

Lemma np_resize_lookup_old (a : list Z) (n : Z) (k : nat) :
  (k < length a)%nat -> Z.of_nat (length a) <= n ->
  np_resize a n !! k = a !! k.
Proof.
  intros Hk Hn. destruct a as [|x a]; [simpl in Hk; lia|].
  unfold np_resize. rewrite list_lookup_fmap, lookup_seq_lt by lia.
  simpl option_map. cbn [fmap option_fmap option_map].
  rewrite Nat.add_0_l, Nat.mod_small by done.
  destruct (lookup_lt_is_Some_2 (x :: a) k Hk) as [y Hy].
  rewrite Hy. f_equal. by apply list_lookup_total_correct.
Qed.

Lemma np_setitem_in_range (a : list Z) (i v : Z) :
  0 <= i < Z.of_nat (length a) ->
  np_setitem a i v = Some (<[Z.to_nat i := v]> a).
Proof.
  intros Hi. unfold np_setitem, np_index.
  destruct (Z.leb_spec 0 i); [|lia].
  destruct (Z.ltb_spec i (Z.of_nat (length a))); [|lia]. done.
Qed.

Lemma np_getitem_in_range (a : list Z) (i : Z) :
  0 <= i < Z.of_nat (length a) ->
  np_getitem a i = a !! Z.to_nat i.
Proof.
  intros Hi. unfold np_getitem, np_index.
  destruct (Z.leb_spec 0 i); [|lia].
  destruct (Z.ltb_spec i (Z.of_nat (length a))); [|lia]. done.
Qed.

(** Capacity after [_upsize]. *)
Definition grown_size (c : TextContext) : Z :=
  if end_idx c >=? size c then size c + CHUNK_SIZE else size c.

Lemma _upsize_cursors (c : TextContext) :
  size (_upsize c) = grown_size c /\
  start_idx (_upsize c) = start_idx c /\
  active_idx (_upsize c) = active_idx c /\
  end_idx (_upsize c) = end_idx c /\
  completion_start_idx (_upsize c) = completion_start_idx c /\
  completion_end_idx (_upsize c) = completion_end_idx c /\
  log_probabilities_data (_upsize c) = log_probabilities_data c /\
  matcher (_upsize c) = matcher c /\
  is_initial_prompt (_upsize c) = is_initial_prompt c /\
  same_request c (_upsize c).
Proof.
  unfold _upsize, grown_size.
  destruct (end_idx c >=? size c); simpl; by repeat split.
Qed.

Lemma _upsize_buffer (c : TextContext) :
  buffer_ok c -> 0 <= size c ->
  buffer_ok (_upsize c) /\
  forall k : nat, (k < length (tokens c))%nat ->
    tokens (_upsize c) !! k = tokens c !! k.
Proof.
  unfold buffer_ok, _upsize. intros Hb Hs.
  destruct (end_idx c >=? size c); simpl; [|done].
  split.
  - apply length_np_resize. unfold CHUNK_SIZE. lia.
  - intros k Hk. apply np_resize_lookup_old; [done|]. unfold CHUNK_SIZE. lia.
Qed.

(** Inside the index window the write after [_upsize] is in range. *)
Lemma _upsize_makes_room (c : TextContext) :
  0 <= active_idx c -> active_idx c <= end_idx c -> end_idx c <= size c ->
  0 <= active_idx c < grown_size c /\ end_idx c + 1 <= grown_size c.
Proof.
  intros. unfold grown_size, CHUNK_SIZE.
  destruct (Z.geb_spec (end_idx c) (size c)); lia.
Qed.

(** Whether the bound matcher, if any, accepts the token. *)
Definition matcher_accepts (new_token : Z) (c : TextContext) : bool :=
  match matcher c with
  | Some m => if matcher_truthy m then (accept_token m new_token).1 else true
  | None => true
  end.

Lemma accept_and_finish_spec (new_token : Z) (c : TextContext) :
  let r := accept_and_finish new_token c in
  r.1 = (if matcher_accepts new_token c then Returned tt
         else Raised AssertionError) /\
  size r.2 = size c /\ tokens r.2 = tokens c /\
  start_idx r.2 = start_idx c /\ active_idx r.2 = active_idx c /\
  end_idx r.2 = end_idx c /\
  completion_start_idx r.2 = completion_start_idx c /\
  completion_end_idx r.2 = completion_end_idx c /\
  log_probabilities_data r.2 = log_probabilities_data c /\
  same_request c r.2.
Proof.
  unfold accept_and_finish, matcher_accepts.
  destruct (matcher c) as [m|]; [|simpl; by repeat split].
  destruct (matcher_truthy m); [|simpl; by repeat split].
  destruct (accept_token m new_token) as [[] m']; simpl; by repeat split.
Qed.

(** ** Forced tokens *)

(** C5, as the code has it: on a context whose buffer has [size]
    elements and whose cursors satisfy
    [0 <= active_idx <= end_idx <= size], [jump_ahead] grows the
    capacity by one chunk exactly when [end_idx] has reached it, keeps the
    old buffer content, writes the token at [active_idx], adds one to
    [active_idx], [end_idx] and [completion_end_idx], leaves [start_idx],
    [completion_start_idx] and the ledger alone, and so lengthens the
    active window by one.  The call returns unless a bound matcher
    rejects the token. *)
Theorem jump_ahead_spec (new_token : Z) (c : TextContext) :
  buffer_ok c ->
  0 <= active_idx c -> active_idx c <= end_idx c -> end_idx c <= size c ->
  let r := jump_ahead new_token c in
  r.1 = (if matcher_accepts new_token c then Returned tt
         else Raised AssertionError) /\
  size r.2 = (if end_idx c >=? size c then size c + CHUNK_SIZE else size c) /\
  buffer_ok r.2 /\
  tokens r.2 !! Z.to_nat (active_idx c) = Some new_token /\
  (forall k : nat, (k < length (tokens c))%nat -> k <> Z.to_nat (active_idx c) ->
     tokens r.2 !! k = tokens c !! k) /\
  active_idx r.2 = active_idx c + 1 /\
  end_idx r.2 = end_idx c + 1 /\
  completion_end_idx r.2 = completion_end_idx c + 1 /\
  start_idx r.2 = start_idx c /\
  completion_start_idx r.2 = completion_start_idx c /\
  log_probabilities_data r.2 = log_probabilities_data c /\
  active_length r.2 = active_length c + 1 /\
  same_request c r.2.
Proof.
  intros Hbuf H0 Hae Hes.
  destruct (_upsize_cursors c)
    as (Hsz & Hst & Hac & Hen & Hcs & Hce & Hld & Hm & _ & Hreq).
  destruct (_upsize_buffer c Hbuf ltac:(lia)) as [Hbuf' Hold].
  destruct (_upsize_makes_room c H0 Hae Hes) as [Hroom _].
  unfold buffer_ok in Hbuf, Hbuf'.
  unfold jump_ahead.
  rewrite np_setitem_in_range by (rewrite Hbuf', Hsz, Hac; lia).
  match goal with
  | |- context [accept_and_finish new_token ?c5] =>
      pose proof (accept_and_finish_spec new_token c5) as Hfin;
      set (r := accept_and_finish new_token c5) in *
  end.
  simpl in Hfin.
  destruct Hfin as (Hr & Hs' & Ht' & Hst' & Hac' & Hen' & Hcs' & Hce' & Hld' & Hreq').
  unfold matcher_accepts in Hr. simpl in Hr. rewrite Hm in Hr.
  unfold active_length, buffer_ok, matcher_accepts, grown_size in *.
  rewrite Hs', Ht', Hst', Hac', Hen', Hcs', Hce', Hld', Hsz.
  rewrite length_insert, Hac, Hen, Hst, Hcs, Hce, Hld.
  unfold same_request in *. simpl in Hreq'.
  repeat split; try done; try lia; try (intuition congruence).
  - apply list_lookup_insert_eq. lia.
  - intros k Hk Hne. rewrite list_lookup_insert_ne by done. by apply Hold.
Qed.

(** ** Generated tokens *)

(** The ledger after a generation-mode [update]. *)
Definition ledger_after_update (lp : option LogProbabilities)
    (c : TextContext) : gmap Z LogProbabilities :=
  match lp with
  | Some l =>
      if lp_truthy l then <[active_idx c := l]> (log_probabilities_data c)
      else log_probabilities_data c
  | None => log_probabilities_data c
  end.

(** [update] at the end of the sequence, on a context whose cursors lie
    inside its buffer. *)
Lemma update_generation_spec (new_token : Z) (lp : option LogProbabilities)
    (is_eos : bool) (c : TextContext) :
  buffer_ok c ->
  0 <= active_idx c -> active_idx c = end_idx c -> end_idx c <= size c ->
  let r := update new_token lp is_eos c in
  r.1 = (if matcher_accepts new_token c then Returned tt
         else Raised AssertionError) /\
  size r.2 = grown_size c /\
  buffer_ok r.2 /\
  tokens r.2 !! Z.to_nat (active_idx c) = Some new_token /\
  (forall k : nat, (k < length (tokens c))%nat -> k <> Z.to_nat (active_idx c) ->
     tokens r.2 !! k = tokens c !! k) /\
  start_idx r.2 = active_idx c /\
  active_idx r.2 = active_idx c + 1 /\
  end_idx r.2 = end_idx c + 1 /\
  completion_end_idx r.2 =
    (if is_eos then completion_end_idx c else completion_end_idx c + 1) /\
  completion_start_idx r.2 = completion_start_idx c /\
  log_probabilities_data r.2 = ledger_after_update lp c.
Proof.
  intros Hbuf H0 Hae Hes.
  destruct (_upsize_cursors c)
    as (Hsz & Hst & Hac & Hen & Hcs & Hce & Hld & Hm & _ & _).
  destruct (_upsize_buffer c Hbuf ltac:(lia)) as [Hbuf' Hold].
  destruct (_upsize_makes_room c H0 ltac:(lia) Hes) as [Hroom _].
  unfold buffer_ok in Hbuf, Hbuf'.
  unfold update.
  destruct (Z.ltb_spec (active_idx c) (end_idx c)); [lia|].
  rewrite np_setitem_in_range by (rewrite Hbuf', Hsz, Hac; lia).
  match goal with
  | |- context [accept_and_finish new_token ?c7] =>
      pose proof (accept_and_finish_spec new_token c7) as Hfin;
      set (r := accept_and_finish new_token c7) in *
  end.
  destruct Hfin as (Hr & Hs' & Ht' & Hst' & Hac' & Hen' & Hcs' & Hce' & Hld' & _).
  unfold matcher_accepts in Hr.
  unfold buffer_ok, matcher_accepts, ledger_after_update.
  rewrite Hs', Ht', Hst', Hac', Hen', Hcs', Hce', Hld', Hr.
  clear Hr Hs' Ht' Hst' Hac' Hen' Hcs' Hce' Hld' r.
  destruct is_eos, lp as [l|]; simpl; try destruct (lp_truthy l); simpl;
    rewrite ?length_insert, ?Hac, ?Hen, ?Hst, ?Hcs, ?Hce, ?Hld, ?Hm, ?Hsz;
    (repeat split; try done; try lia;
     [ apply list_lookup_insert_eq; lia
     | intros k Hk Hne; rewrite list_lookup_insert_ne by done; by apply Hold ]).
Qed.

(** ** What each call does to the cursors *)

(** The cursors after [update], whatever the state of the buffer: the
    chunked-prefill move, a write that fell outside the buffer, or an
    appended token. *)
Lemma update_cursors (new_token : Z) (lp : option LogProbabilities)
    (is_eos : bool) (c : TextContext) :
  let c' := (update new_token lp is_eos c).2 in
  completion_start_idx c' = completion_start_idx c /\
  ((active_idx c < end_idx c /\ size c' = size c /\
    start_idx c' = active_idx c /\ active_idx c' = end_idx c /\
    end_idx c' = end_idx c /\
    completion_end_idx c' = completion_end_idx c)
   \/ (end_idx c <= active_idx c /\ size c' = grown_size c /\
       start_idx c' = start_idx c /\ active_idx c' = active_idx c /\
       end_idx c' = end_idx c /\
       completion_end_idx c' = completion_end_idx c)
   \/ (end_idx c <= active_idx c /\ size c' = grown_size c /\
       start_idx c' = active_idx c /\ active_idx c' = active_idx c + 1 /\
       end_idx c' = end_idx c + 1 /\
       completion_end_idx c' =
         (if is_eos then completion_end_idx c
          else completion_end_idx c + 1))).
Proof.
  destruct (_upsize_cursors c)
    as (Hsz & Hst & Hac & Hen & Hcs & Hce & _).
  unfold update.
  destruct (Z.ltb_spec (active_idx c) (end_idx c)).
  { simpl. split; [done|]. left. by repeat split. }
  destruct (np_setitem (tokens (_upsize c)) (active_idx (_upsize c)) new_token)
    as [buf|].
  2:{ simpl. split; [done|]. right; left. by repeat split. }
  match goal with
  | |- context [accept_and_finish new_token ?c7] =>
      pose proof (accept_and_finish_spec new_token c7) as Hfin;
      set (r := accept_and_finish new_token c7) in *
  end.
  destruct Hfin as (_ & Hs' & _ & Hst' & Hac' & Hen' & Hcs' & Hce' & _).
  cbv zeta. rewrite Hs', Hst', Hac', Hen', Hcs', Hce'.
  clear Hs' Hst' Hac' Hen' Hcs' Hce' r.
  destruct is_eos, lp as [l|]; simpl; try destruct (lp_truthy l); simpl;
    rewrite ?Hac, ?Hen, ?Hst, ?Hcs, ?Hce, ?Hsz;
    (split; [done|]; right; right; by repeat split).
Qed.

Lemma jump_ahead_cursors (new_token : Z) (c : TextContext) :
  let c' := (jump_ahead new_token c).2 in
  completion_start_idx c' = completion_start_idx c /\
  start_idx c' = start_idx c /\
  size c' = grown_size c /\
  ((active_idx c' = active_idx c /\ end_idx c' = end_idx c /\
    completion_end_idx c' = completion_end_idx c)
   \/ (active_idx c' = active_idx c + 1 /\ end_idx c' = end_idx c + 1 /\
       completion_end_idx c' = completion_end_idx c + 1)).
Proof.
  destruct (_upsize_cursors c)
    as (Hsz & Hst & Hac & Hen & Hcs & Hce & _).
  unfold jump_ahead.
  destruct (np_setitem (tokens (_upsize c)) (active_idx (_upsize c)) new_token)
    as [buf|].
  2:{ simpl. repeat split; try done. by left. }
  match goal with
  | |- context [accept_and_finish new_token ?c5] =>
      pose proof (accept_and_finish_spec new_token c5) as Hfin;
      set (r := accept_and_finish new_token c5) in *
  end.
  destruct Hfin as (_ & Hs' & _ & Hst' & Hac' & Hen' & Hcs' & Hce' & _).
  cbv zeta. rewrite Hs', Hst', Hac', Hen', Hcs', Hce'. simpl.
  rewrite Hac, Hen, Hst, Hcs, Hce, Hsz.
  repeat split; try done. by right.
Qed.

Lemma bump_token_indices_cursors (d_start d_active d_end : option Z)
    (c : TextContext) :
  let c' := (bump_token_indices d_start d_active d_end c).2 in
  completion_start_idx c' = completion_start_idx c /\
  completion_end_idx c' = completion_end_idx c /\
  size c' = size c /\
  (c' = c \/ start_idx c' < active_idx c' <= end_idx c').
Proof.
  unfold bump_token_indices.
  destruct (Z.geb_spec (or_zero d_start + start_idx c)
              (or_zero d_active + active_idx c)); simpl.
  { repeat split; try done. by left. }
  destruct (Z.gtb_spec (or_zero d_active + active_idx c)
              (or_zero d_end + end_idx c)); simpl.
  { repeat split; try done. by left. }
  repeat split; try done. right. lia.
Qed.

Lemma outstanding_completion_tokens_cursors (c : TextContext) :
  let r := outstanding_completion_tokens c in
  start_idx r.2 = start_idx c /\ active_idx r.2 = active_idx c /\
  end_idx r.2 = end_idx c /\ size r.2 = size c /\
  tokens r.2 = tokens c /\
  completion_end_idx r.2 = completion_end_idx c /\
  matcher r.2 = matcher c /\
  is_initial_prompt r.2 = is_initial_prompt c /\
  same_request c r.2 /\
  completion_start_idx r.2 =
    (if returned r.1 then completion_end_idx c else completion_start_idx c).
Proof.
  unfold outstanding_completion_tokens.
  destruct (drain_loop _ _ _ _) as [[res|e] ledger]; simpl; by repeat split.
Qed.

(** ** Invariants along call sequences *)

Lemma grown_size_chunks (c : TextContext) :
  size c mod CHUNK_SIZE = 0 -> grown_size c mod CHUNK_SIZE = 0.
Proof.
  unfold grown_size. intros Hm.
  destruct (end_idx c >=? size c); [|done].
  rewrite <- (Z.mul_1_l CHUNK_SIZE) at 1.
  by rewrite Z.mod_add.
Qed.

Lemma grown_size_bounds (c : TextContext) :
  size c <= grown_size c /\ (end_idx c <= size c -> end_idx c < grown_size c).
Proof.
  unfold grown_size, CHUNK_SIZE.
  destruct (Z.geb_spec (end_idx c) (size c)); lia.
Qed.

Lemma exec_drain (c : TextContext) :
  exec OpDrain c = (outstanding_completion_tokens c).2.
Proof.
  unfold exec, step. by destruct (outstanding_completion_tokens c).
Qed.

Lemma TextContext_init_Inv (id : Z) (p : string + list Z) (ml : option Z)
    (t : ndarray) (k : Z) (echo : bool) (js : option string) (c : TextContext) :
  TextContext_init id p ml t k echo js = Returned c -> Inv c.
Proof.
  unfold TextContext_init.
  destruct (negb (ndim t =? 1)%nat); [done|].
  destruct (Z.leb_spec (np_len t) (ceil_div (np_len t) CHUNK_SIZE * CHUNK_SIZE));
    simpl; [|done].
  intros [= <-]. unfold Inv. simpl.
  pose proof (ceil_div_chunk_multiple (np_len t)).
  unfold np_len in *. repeat split; try done; lia.
Qed.

Lemma exec_Inv_core (o : op) (c : TextContext) :
  Inv_core c -> Inv_core (exec o c).
Proof.
  unfold Inv_core. intros (Hae & Hm & Hc).
  destruct o as [t lp e|t|a b d| | |m].
  - pose proof (update_cursors t lp e c) as Hu.
    pose proof (grown_size_chunks c Hm).
    unfold exec, step; simpl in *. destruct e; intuition (congruence || lia).
  - pose proof (jump_ahead_cursors t c) as Hu.
    pose proof (grown_size_chunks c Hm).
    unfold exec, step; simpl in *. intuition (congruence || lia).
  - pose proof (bump_token_indices_cursors a b d c) as Hu.
    unfold exec, step; simpl in *.
    destruct Hu as (H1 & H2 & H3 & [->|H4]); [done|].
    rewrite H1, H2, H3. repeat split; try done; lia.
  - done.
  - rewrite exec_drain.
    pose proof (outstanding_completion_tokens_cursors c) as Hu. simpl in Hu.
    destruct Hu as (_ & H2 & H3 & H4 & _ & H6 & _ & _ & _ & H7).
    rewrite H2, H3, H4, H6, H7.
    destruct (returned _); repeat split; try done; lia.
  - done.
Qed.

Lemma exec_Inv (o : op) (c : TextContext) :
  Inv c -> bump_in_bounds o c = true -> Inv (exec o c).
Proof.
  unfold Inv. intros (H0 & Hsa & Hae & Hes & Hm & Hc & Hce) Hb.
  destruct o as [t lp e|t|a b d| | |m].
  - pose proof (update_cursors t lp e c) as Hu.
    pose proof (grown_size_chunks c Hm).
    pose proof (grown_size_bounds c).
    unfold exec, step; simpl in *. destruct e; intuition (congruence || lia).
  - pose proof (jump_ahead_cursors t c) as Hu.
    pose proof (grown_size_chunks c Hm).
    pose proof (grown_size_bounds c).
    unfold exec, step; simpl in *. intuition (congruence || lia).
  - pose proof (bump_token_indices_cursors a b d c) as Hu.
    unfold bump_in_bounds in Hb.
    apply andb_prop in Hb as [Hb Hb3]. apply andb_prop in Hb as [Hb1 Hb2].
    apply Z.leb_le in Hb1, Hb2, Hb3.
    unfold exec, step in *; simpl in *.
    destruct Hu as (H1 & H2 & H3 & [Heq|H4]).
    + rewrite Heq. by repeat split.
    + rewrite H1, H2, H3 in *. repeat split; try done; lia.
  - unfold exec, step, reset; simpl. repeat split; try done; lia.
  - rewrite exec_drain.
    pose proof (outstanding_completion_tokens_cursors c) as Hu. simpl in Hu.
    destruct Hu as (H1 & H2 & H3 & H4 & _ & H6 & _ & _ & _ & H7).
    rewrite H1, H2, H3, H4, H6, H7.
    destruct (returned _); repeat split; try done; lia.
  - done.
Qed.

Lemma Inv_Inv_core (c : TextContext) : Inv c -> Inv_core c.
Proof. unfold Inv, Inv_core. tauto. Qed.

Lemma states_Inv_core (ops : list op) (c : TextContext) :
  Inv_core c -> Forall Inv_core (states ops c).
Proof.
  revert c. induction ops as [|o ops IH]; intros c Hc; simpl.
  - constructor.
  - constructor; [by apply exec_Inv_core|]. apply IH. by apply exec_Inv_core.
Qed.

Lemma states_Inv (ops : list op) (c : TextContext) :
  Inv c -> bumps_in_bounds ops c = true -> Forall Inv (states ops c).
Proof.
  revert c. induction ops as [|o ops IH]; intros c Hc Hb; simpl.
  - constructor.
  - simpl in Hb. apply andb_prop in Hb as [Hb1 Hb2].
    constructor; [by apply exec_Inv|]. apply IH; [by apply exec_Inv|done].
Qed.

(** C1, as the code has it: a constructed context satisfies
    [0 <= start_idx <= active_idx <= end_idx <= size], [size mod 128 = 0]
    and [completion_start_idx <= completion_end_idx <= end_idx].  After
    every call of every sequence of calls, [active_idx <= end_idx],
    [size mod 128 = 0] and [completion_start_idx <= completion_end_idx]
    hold; and all the invariants hold after every call of a sequence in
    which each [bump_token_indices] leaves [0 <= start_idx],
    [end_idx <= size] and [completion_end_idx <= end_idx]. *)
Theorem invariants_along_calls (id : Z) (p : string + list Z) (ml : option Z)
    (t : ndarray) (k : Z) (echo : bool) (js : option string)
    (c0 : TextContext) (ops : list op) :
  TextContext_init id p ml t k echo js = Returned c0 ->
  Inv c0 /\
  Forall Inv_core (states ops c0) /\
  (bumps_in_bounds ops c0 = true -> Forall Inv (states ops c0)).
Proof.
  intros Hinit. pose proof (TextContext_init_Inv _ _ _ _ _ _ _ _ Hinit) as Hc.
  split; [done|]. split.
  - apply states_Inv_core. by apply Inv_Inv_core.
  - intros Hb. by apply states_Inv.
Qed.

(** ** The completion window is drained once *)

(** Every position below this mark is out of reach of later drains. *)
Definition low_mark (c : TextContext) : Z :=
  Z.min (completion_start_idx c) (completion_end_idx c).

Lemma step_drain (c : TextContext) :
  (step OpDrain c).2 =
    if returned (outstanding_completion_tokens c).1
    then Some (py_range (completion_start_idx c) (completion_end_idx c))
    else None.
Proof. unfold step. by destruct (outstanding_completion_tokens c). Qed.

Lemma step_returns_positions (o : op) (c : TextContext) (ps : list Z) :
  (step o c).2 = Some ps -> o = OpDrain.
Proof. by destruct o. Qed.

Lemma elem_of_py_range (lo hi x : Z) : x ∈ py_range lo hi <-> lo <= x < hi.
Proof. unfold py_range. rewrite elem_of_seqZ. lia. Qed.

Lemma low_mark_mono (o : op) (c : TextContext) :
  low_mark c <= low_mark (exec o c).
Proof.
  unfold low_mark. destruct o as [t lp e|t|a b d| | |m].
  - pose proof (update_cursors t lp e c) as Hu.
    unfold exec, step; simpl in *. destruct e; intuition lia.
  - pose proof (jump_ahead_cursors t c) as Hu.
    unfold exec, step; simpl in *. intuition lia.
  - pose proof (bump_token_indices_cursors a b d c) as Hu.
    unfold exec, step; simpl in *. intuition lia.
  - unfold exec, step, reset; simpl. lia.
  - rewrite exec_drain.
    pose proof (outstanding_completion_tokens_cursors c) as Hu. simpl in Hu.
    destruct Hu as (_ & _ & _ & _ & _ & H6 & _ & _ & _ & H7).
    rewrite H6, H7. destruct (returned _); lia.
  - unfold exec, step; simpl. lia.
Qed.

(** A drain that returned positions moved the mark past all of them. *)
Lemma drain_below_mark (c : TextContext) (ps : list Z) (x : Z) :
  (step OpDrain c).2 = Some ps -> x ∈ ps ->
  low_mark c <= x < low_mark (exec OpDrain c).
Proof.
  rewrite step_drain, exec_drain. intros Hps Hx.
  pose proof (outstanding_completion_tokens_cursors c) as Hu. simpl in Hu.
  destruct Hu as (_ & _ & _ & _ & _ & H6 & _ & _ & _ & H7).
  unfold low_mark. rewrite H6, H7.
  destruct (returned _); [|done].
  injection Hps as <-. apply elem_of_py_range in Hx. lia.
Qed.

Lemma drains_above_mark (ops : list op) (c : TextContext) (x : Z) :
  x ∈ concat (drains ops c) -> low_mark c <= x.
Proof.
  revert c. induction ops as [|o ops IH]; intros c; simpl.
  - by intros ?%elem_of_nil.
  - pose proof (low_mark_mono o c) as Hmono.
    destruct (step o c).2 as [ps|] eqn:Hstep; simpl.
    + rewrite elem_of_app. intros [Hx|Hx].
      * pose proof (step_returns_positions o c ps Hstep) as ->.
        by destruct (drain_below_mark c ps x Hstep Hx).
      * specialize (IH _ Hx). lia.
    + intros Hx. specialize (IH _ Hx). lia.
Qed.

(** C7: along any sequence of calls on any context, the positions
    returned by all the [outstanding_completion_tokens] calls together
    contain no position twice. *)
Theorem drains_never_repeat (ops : list op) (c : TextContext) :
  NoDup (concat (drains ops c)).
Proof.
  revert c. induction ops as [|o ops IH]; intros c; simpl.
  - constructor.
  - destruct (step o c).2 as [ps|] eqn:Hstep; simpl; [|apply IH].
    pose proof (step_returns_positions o c ps Hstep) as ->.
    apply NoDup_app. split; [|split; [|apply IH]].
    + rewrite step_drain in Hstep.
      destruct (returned _); [|done]. injection Hstep as <-.
      apply NoDup_seqZ.
    + intros x Hx Hlater.
      destruct (drain_below_mark c ps x Hstep Hx) as [_ Hlt].
      apply drains_above_mark in Hlater. lia.
Qed.

(** ** Draining the completion window *)

(** What a drain hands out for position [p]: the token there and the
    ledger entry of [p], if any. *)
Definition drained_item (buf : list Z) (ledger : gmap Z LogProbabilities)
    (p : Z) (item : Z * option LogProbabilities) : Prop :=
  np_getitem buf p = Some item.1 /\ item.2 = ledger !! p.

Lemma drained_item_delete (buf : list Z) (ledger : gmap Z LogProbabilities)
    (i : Z) (ps : list Z) (items : list (Z * option LogProbabilities)) :
  i ∉ ps ->
  Forall2 (drained_item buf (delete i ledger)) ps items ->
  Forall2 (drained_item buf ledger) ps items.
Proof.
  intros Hi Hall. induction Hall as [|p it ps items [Hp1 Hp2] Hall IH].
  - constructor.
  - apply not_elem_of_cons in Hi as [Hne Hi].
    constructor; [|by apply IH].
    split; [done|]. rewrite Hp2. by apply lookup_delete_ne.
Qed.

Lemma drain_loop_returned (idxs : list Z) (buf : list Z)
    (ledger : gmap Z LogProbabilities)
    (res out : list (Z * option LogProbabilities))
    (ledger' : gmap Z LogProbabilities) :
  NoDup idxs ->
  drain_loop idxs buf ledger res = (Returned out, ledger') ->
  exists items,
    out = res ++ items /\
    Forall2 (drained_item buf ledger) idxs items /\
    forall j, ledger' !! j = if decide (j ∈ idxs) then None else ledger !! j.
Proof.
  revert ledger res. induction idxs as [|i rest IH]; intros ledger res Hnd; simpl.
  - intros [= <- <-]. exists []. rewrite app_nil_r.
    split; [done|]. split; [constructor|].
    done.
  - apply NoDup_cons in Hnd as [Hi Hnd].
    destruct (np_getitem buf i) as [t|] eqn:Hget; [|done].
    intros Hloop. destruct (IH _ _ Hnd Hloop) as (items & -> & Hitems & Hled).
    exists ((t, ledger !! i) :: items). split; [by rewrite <- app_assoc|].
    split.
    + constructor; [done|]. by apply (drained_item_delete buf ledger i).
    + intros j. rewrite Hled.
      destruct (decide (j = i)) as [->|Hne].
      * rewrite lookup_delete_eq.
        repeat case_decide; try done.
        exfalso. apply H0. apply list_elem_of_here.
      * rewrite lookup_delete_ne by done.
        repeat case_decide; try done.
        -- exfalso. apply H0. by apply list_elem_of_further.
        -- exfalso. apply elem_of_cons in H0 as [?|?]; done.
Qed.

Lemma drain_loop_in_range (idxs : list Z) (buf : list Z)
    (ledger : gmap Z LogProbabilities)
    (res : list (Z * option LogProbabilities)) :
  Forall (fun p => 0 <= p < Z.of_nat (length buf)) idxs ->
  returned (drain_loop idxs buf ledger res).1 = true.
Proof.
  revert ledger res. induction idxs as [|i rest IH]; intros ledger res Hin; simpl.
  - done.
  - apply Forall_cons in Hin as [Hi Hin].
    rewrite np_getitem_in_range by done.
    destruct (lookup_lt_is_Some_2 buf (Z.to_nat i) ltac:(lia)) as [t ->].
    by apply IH.
Qed.




(** ** End-of-sequence tokens *)

Lemma exec_no_append (o : op) (c : TextContext) :
  appends o c = false ->
  completion_end_idx (exec o c) = completion_end_idx c.
Proof.
  destruct o as [t lp e|t|a b d| | |m]; simpl; intros Happ; try done.
  - apply negb_false_iff, Z.ltb_lt in Happ.
    pose proof (update_cursors t lp e c) as Hu.
    unfold exec, step; simpl in *. intuition lia.
  - pose proof (bump_token_indices_cursors a b d c) as Hu.
    unfold exec, step; simpl in *. intuition lia.
  - rewrite exec_drain.
    pose proof (outstanding_completion_tokens_cursors c) as Hu. simpl in Hu.
    intuition lia.
Qed.

(** While no token is appended, no drain reaches a position at or past
    [completion_end_idx]. *)
Lemma drains_without_append (ops : list op) (c : TextContext) (p : Z) :
  completion_end_idx c <= p ->
  no_append ops c = true ->
  Forall (fun ps => p ∉ ps) (drains ops c).
Proof.
  revert c. induction ops as [|o ops IH]; intros c Hp Hq; simpl.
  - constructor.
  - simpl in Hq. apply andb_prop in Hq as [Ho Hq].
    apply negb_true_iff in Ho.
    pose proof (exec_no_append o c Ho) as Hce.
    destruct (step o c).2 as [ps|] eqn:Hstep; [|apply IH; [lia|done]].
    constructor; [|apply IH; [lia|done]].
    pose proof (step_returns_positions o c ps Hstep) as ->.
    rewrite step_drain in Hstep.
    destruct (returned _); [|done]. injection Hstep as <-.
    rewrite elem_of_py_range. lia.
Qed.

(** C3, as the code has it: on a context with
    [0 <= active_idx = end_idx <= size], a buffer of [size] elements and
    [completion_end_idx <= end_idx], [update] with [is_eos] set writes
    the token at the old [active_idx], adds one to [end_idx] and leaves
    [completion_end_idx] alone; and in every sequence of later calls
    that appends no further token (no [jump_ahead], no [update] outside
    chunked prefill), no drain returns the position of that token. *)
Theorem update_eos_spec (new_token : Z) (lp : option LogProbabilities)
    (c : TextContext) :
  buffer_ok c ->
  0 <= active_idx c -> active_idx c = end_idx c -> end_idx c <= size c ->
  completion_end_idx c <= end_idx c ->
  let c' := (update new_token lp true c).2 in
  tokens c' !! Z.to_nat (active_idx c) = Some new_token /\
  end_idx c' = end_idx c + 1 /\
  completion_end_idx c' = completion_end_idx c /\
  forall ops, no_append ops c' = true ->
    Forall (fun ps => active_idx c ∉ ps) (drains ops c').
Proof.
  intros Hbuf H0 Hae Hes Hce.
  pose proof (update_generation_spec new_token lp true c Hbuf H0 Hae Hes) as Hu.
  simpl in Hu.
  destruct Hu as (_ & _ & _ & Htok & _ & _ & _ & Hend & Hcend & _).
  cbv zeta. split_and!; try done.
  intros ops Hq. apply drains_without_append; [|done]. lia.
Qed.

(** ** Auxiliary inputs of the vision variant *)

Lemma vision_exec_keeps_empty (o : op) (v : TextAndVisionContext) :
  pixel_values v = [] -> pixel_values (vision_exec o v) = [].
Proof.
  intros Hv. destruct o as [t lp e|t|a b d| | |m]; try done.
  unfold vision_exec, vision_update.
  by destruct (update t lp e (base v)) as [[[]|ex] b].
Qed.

Lemma vision_run_keeps_empty (ops : list op) (v : TextAndVisionContext) :
  pixel_values v = [] -> pixel_values (vision_run ops v) = [].
Proof.
  revert v. induction ops as [|o ops IH]; intros v Hv; simpl; [done|].
  apply IH. by apply vision_exec_keeps_empty.
Qed.

(** C9: once an [update] of a vision context has returned,
    [pixel_values] is empty, and it stays empty through every sequence
    of later calls. *)
Theorem vision_update_clears_pixel_values (new_token : Z)
    (lp : option LogProbabilities) (is_eos : bool)
    (v v' : TextAndVisionContext) :
  vision_update new_token lp is_eos v = (Returned tt, v') ->
  pixel_values v' = [] /\
  forall ops, pixel_values (vision_run ops v') = [].
Proof.
  unfold vision_update.
  destruct (update new_token lp is_eos (base v)) as [[[]|ex] b]; [|done].
  intros [= <-]. split; [done|].
  intros ops. by apply vision_run_keeps_empty.
Qed.


(** * Further properties of the module *)

(** ** Slices *)

Lemma py_slice_in_range (a : list Z) (lo hi : Z) :
  0 <= lo -> lo <= hi -> hi <= Z.of_nat (length a) ->
  py_slice a lo hi = take (Z.to_nat (hi - lo)) (drop (Z.to_nat lo) a).
Proof.
  intros Hlo Hlh Hhi. unfold py_slice, py_slice_bound.
  destruct (Z.ltb_spec lo 0); [lia|].
  destruct (Z.ltb_spec hi 0); [lia|].
  by rewrite !Z.min_l by lia.
Qed.

Lemma py_slice_app (a : list Z) (lo mid hi : Z) :
  0 <= lo -> lo <= mid -> mid <= hi -> hi <= Z.of_nat (length a) ->
  py_slice a lo mid ++ py_slice a mid hi = py_slice a lo hi.
Proof.
  intros. rewrite !py_slice_in_range by lia.
  replace (Z.to_nat mid) with (Z.to_nat lo + Z.to_nat (mid - lo))%nat by lia.
  rewrite <- drop_drop, take_take_drop. f_equal. lia.
Qed.

Lemma py_slice_single (a : list Z) (i x : Z) :
  0 <= i -> a !! Z.to_nat i = Some x -> py_slice a i (i + 1) = [x].
Proof.
  intros Hi Hx. pose proof (lookup_lt_Some _ _ _ Hx) as Hlt.
  rewrite py_slice_in_range by lia.
  replace (Z.to_nat (i + 1 - i)) with 1%nat by lia.
  rewrite (drop_S _ _ _ Hx). simpl. by rewrite take_0.
Qed.

(** ** Construction: errors and the fresh context *)

(** X1: the constructor raises [ValueError] exactly on an array that is
    not one-dimensional; on a one-dimensional array it returns, and the
    assertion on the capacity never fires.  The fresh context has
    [start_idx = 0], all four other cursors at the prompt length, an
    empty ledger, no matcher, and satisfies the index invariants. *)
Theorem TextContext_init_outcome (id : Z) (p : string + list Z)
    (ml : option Z) (t : ndarray) (k : Z) (echo : bool) (js : option string) :
  match TextContext_init id p ml t k echo js with
  | Raised e => e = ValueError /\ ndim t <> 1%nat
  | Returned c =>
      ndim t = 1%nat /\ Inv c /\
      start_idx c = 0 /\ active_idx c = np_len t /\ end_idx c = np_len t /\
      completion_start_idx c = np_len t /\ completion_end_idx c = np_len t /\
      log_probabilities_data c = ∅ /\ matcher c = None /\
      is_initial_prompt c = true
  end.
Proof.
  pose proof (TextContext_init_Inv id p ml t k echo js) as HInv.
  unfold TextContext_init in *.
  destruct (Nat.eqb_spec (ndim t) 1) as [Hd|Hd]; simpl in *; [|done].
  pose proof (ceil_div_chunk_bounds (np_len t)) as Hb.
  destruct (Z.leb_spec (np_len t) (ceil_div (np_len t) CHUNK_SIZE * CHUNK_SIZE));
    simpl in *; [|lia].
  split; [done|]. split; [by apply HInv|]. done.
Qed.

Lemma TextContext_init_tokens (id : Z) (p : string + list Z)
    (ml : option Z) (t : ndarray) (k : Z) (echo : bool) (js : option string)
    (L : nat) (c : TextContext) :
  nd_shape t = [L] ->
  length (nd_data t) = L ->
  TextContext_init id p ml t k echo js = Returned c ->
  tokens c = nd_data t ++ replicate (Z.to_nat (size c) - L) 0 /\
  Z.of_nat L <= size c < Z.of_nat L + CHUNK_SIZE /\
  end_idx c = Z.of_nat L /\ completion_start_idx c = Z.of_nat L /\
  log_probabilities_data c = ∅.
Proof.
  intros Hshape Hlen. unfold TextContext_init, ndim, np_len. rewrite Hshape.
  simpl. pose proof (ceil_div_chunk_bounds (Z.of_nat L)) as Hb.
  destruct (Z.leb_spec (Z.of_nat L) (ceil_div (Z.of_nat L) CHUNK_SIZE * CHUNK_SIZE));
    simpl; [|lia].
  intros [= <-]. simpl. split_and!; try done; try lia.
  unfold np_assign_prefix, np_zeros. by rewrite drop_replicate, Hlen.
Qed.

(** X2: the buffer of a context built from a one-dimensional array of
    length [L] is the prompt followed by zeros up to the capacity, and
    its length is the capacity. *)
Theorem TextContext_init_buffer (id : Z) (p : string + list Z)
    (ml : option Z) (t : ndarray) (k : Z) (echo : bool) (js : option string)
    (L : nat) (c : TextContext) :
  nd_shape t = [L] ->
  length (nd_data t) = L ->
  TextContext_init id p ml t k echo js = Returned c ->
  tokens c = nd_data t ++ replicate (Z.to_nat (size c) - L) 0 /\
  buffer_ok c /\
  forall j : nat, (L <= j)%nat -> Z.of_nat j < size c -> tokens c !! j = Some 0.
Proof.
  intros Hshape Hlen Hinit.
  destruct (TextContext_init_tokens _ _ _ _ _ _ _ _ _ Hshape Hlen Hinit)
    as (Htok & Hsz & _).
  split; [done|]. split.
  - unfold buffer_ok. rewrite Htok, length_app, length_replicate. lia.
  - intros j Hj Hjs. rewrite Htok, lookup_app_r by lia.
    apply lookup_replicate_2. lia.
Qed.

(** ** Draining twice *)

Lemma outstanding_completion_tokens_empty (c : TextContext) :
  completion_start_idx c = completion_end_idx c ->
  outstanding_completion_tokens c = (Returned [], c).
Proof.
  intros Heq. unfold outstanding_completion_tokens, py_range.
  rewrite Heq, Z.sub_diag. simpl. destruct c; simpl in *. by subst.
Qed.

(** X3: when a drain has returned, a drain called right after it returns
    the empty list and leaves the context exactly as it is. *)
Theorem outstanding_completion_tokens_twice (c : TextContext)
    (res : list (Z * option LogProbabilities)) :
  (outstanding_completion_tokens c).1 = Returned res ->
  outstanding_completion_tokens (outstanding_completion_tokens c).2
    = (Returned [], (outstanding_completion_tokens c).2).
Proof.
  intros Hret. apply outstanding_completion_tokens_empty.
  pose proof (outstanding_completion_tokens_cursors c) as Hu. simpl in Hu.
  destruct Hu as (_ & _ & _ & _ & _ & H6 & _ & _ & _ & H7).
  rewrite H6, H7, Hret. done.
Qed.

(** ** Appending a token: the matcher, the window, the failures *)

Lemma accept_and_finish_matcher (new_token : Z) (c : TextContext) :
  let r := accept_and_finish new_token c in
  match matcher c with
  | Some m =>
      if matcher_truthy m then
        matcher r.2 = Some (accept_token m new_token).2 /\
        is_initial_prompt r.2 =
          (if (accept_token m new_token).1 then false else is_initial_prompt c)
      else matcher r.2 = Some m /\ is_initial_prompt r.2 = false
  | None => matcher r.2 = None /\ is_initial_prompt r.2 = false
  end.
Proof.
  unfold accept_and_finish.
  destruct (matcher c) as [m|] eqn:Hm; [|by simpl].
  destruct (matcher_truthy m); [|by simpl].
  by destruct (accept_token m new_token) as [[] m'].
Qed.

(** What the tail of [update] and [jump_ahead] leaves in the matcher and
    in [is_initial_prompt], read off the context before the call. *)
Definition matcher_after (new_token : Z) (c c' : TextContext) : Prop :=
  match matcher c with
  | Some m =>
      if matcher_truthy m then
        matcher c' = Some (accept_token m new_token).2 /\
        is_initial_prompt c' =
          (if (accept_token m new_token).1 then false else is_initial_prompt c)
      else matcher c' = Some m /\ is_initial_prompt c' = false
  | None => matcher c' = None /\ is_initial_prompt c' = false
  end.

Lemma update_generation_matcher (new_token : Z) (lp : option LogProbabilities)
    (is_eos : bool) (c : TextContext) :
  buffer_ok c ->
  0 <= active_idx c -> active_idx c = end_idx c -> end_idx c <= size c ->
  matcher_after new_token c (update new_token lp is_eos c).2.
Proof.
  intros Hbuf H0 Hae Hes.
  destruct (_upsize_cursors c)
    as (Hsz & _ & Hac & _ & _ & _ & _ & Hm & Hip & _).
  destruct (_upsize_buffer c Hbuf ltac:(lia)) as [Hbuf' _].
  destruct (_upsize_makes_room c H0 ltac:(lia) Hes) as [Hroom _].
  unfold buffer_ok in Hbuf, Hbuf'.
  unfold update, matcher_after.
  destruct (Z.ltb_spec (active_idx c) (end_idx c)); [lia|].
  rewrite np_setitem_in_range by (rewrite Hbuf', Hsz, Hac; lia).
  match goal with
  | |- context [accept_and_finish new_token ?c7] =>
      pose proof (accept_and_finish_matcher new_token c7) as Hfin;
      set (r := accept_and_finish new_token c7) in *
  end.
  assert (Hfin' : match matcher (_upsize c) with
                  | Some m =>
                      if matcher_truthy m then
                        matcher r.2 = Some (accept_token m new_token).2 /\
                        is_initial_prompt r.2 =
                          (if (accept_token m new_token).1 then false
                           else is_initial_prompt (_upsize c))
                      else matcher r.2 = Some m /\ is_initial_prompt r.2 = false
                  | None => matcher r.2 = None /\ is_initial_prompt r.2 = false
                  end).
  { clear -Hfin. destruct is_eos, lp as [l|]; simpl in Hfin;
      try destruct (lp_truthy l); simpl in Hfin; exact Hfin. }
  by rewrite Hm, Hip in Hfin'.
Qed.

(** [jump_ahead] on a context whose cursors lie inside its buffer. *)
Lemma jump_ahead_effect (new_token : Z) (c : TextContext) :
  buffer_ok c ->
  0 <= active_idx c -> active_idx c <= end_idx c -> end_idx c <= size c ->
  let r := jump_ahead new_token c in
  r.1 = (if matcher_accepts new_token c then Returned tt
         else Raised AssertionError) /\
  size r.2 = grown_size c /\
  buffer_ok r.2 /\
  tokens r.2 !! Z.to_nat (active_idx c) = Some new_token /\
  (forall k : nat, (k < length (tokens c))%nat -> k <> Z.to_nat (active_idx c) ->
     tokens r.2 !! k = tokens c !! k) /\
  start_idx r.2 = start_idx c /\
  active_idx r.2 = active_idx c + 1 /\
  end_idx r.2 = end_idx c + 1 /\
  completion_end_idx r.2 = completion_end_idx c + 1 /\
  completion_start_idx r.2 = completion_start_idx c /\
  log_probabilities_data r.2 = log_probabilities_data c /\
  matcher_after new_token c r.2.
Proof.
  intros Hbuf H0 Hae Hes.
  destruct (_upsize_cursors c)
    as (Hsz & Hst & Hac & Hen & Hcs & Hce & Hld & Hm & Hip & _).
  destruct (_upsize_buffer c Hbuf ltac:(lia)) as [Hbuf' Hold].
  destruct (_upsize_makes_room c H0 Hae Hes) as [Hroom _].
  unfold buffer_ok in Hbuf, Hbuf'.
  unfold jump_ahead.
  rewrite np_setitem_in_range by (rewrite Hbuf', Hsz, Hac; lia).
  match goal with
  | |- context [accept_and_finish new_token ?c5] =>
      pose proof (accept_and_finish_spec new_token c5) as Hfin;
      pose proof (accept_and_finish_matcher new_token c5) as Hmat;
      set (r := accept_and_finish new_token c5) in *
  end.
  simpl in Hfin, Hmat.
  destruct Hfin as (Hr & Hs' & Ht' & Hst' & Hac' & Hen' & Hcs' & Hce' & Hld' & _).
  unfold matcher_accepts in Hr. simpl in Hr. rewrite Hm in Hr.
  rewrite Hm, Hip in Hmat.
  unfold buffer_ok, matcher_accepts, matcher_after in *.
  rewrite Hs', Ht', Hst', Hac', Hen', Hcs', Hce', Hld'.
  rewrite length_insert, Hac, Hen, Hst, Hcs, Hce, Hld.
  split_and!; try done; try lia.
  - apply list_lookup_insert_eq. lia.
  - intros k Hk Hne. rewrite list_lookup_insert_ne by done. by apply Hold.
Qed.

(** X4: a generated token becomes the whole next window.  On a context
    with [0 <= active_idx = end_idx <= size] and a buffer of [size]
    elements, after [update] the next tokens are the new token alone,
    the active length is 1, the current length has grown by one, and the
    ledger holds the log-probabilities under the token's position exactly
    when some were passed and are truthy. *)
Theorem update_generation_window (new_token : Z)
    (lp : option LogProbabilities) (is_eos : bool) (c : TextContext) :
  buffer_ok c ->
  0 <= active_idx c -> active_idx c = end_idx c -> end_idx c <= size c ->
  let c' := (update new_token lp is_eos c).2 in
  next_tokens c' = [new_token] /\
  active_length c' = 1 /\
  current_length c' = current_length c + 1 /\
  log_probabilities_data c' =
    match lp with
    | Some l =>
        if lp_truthy l then <[active_idx c := l]> (log_probabilities_data c)
        else log_probabilities_data c
    | None => log_probabilities_data c
    end.
Proof.
  intros Hbuf H0 Hae Hes.
  pose proof (update_generation_spec new_token lp is_eos c Hbuf H0 Hae Hes) as Hu.
  simpl in Hu.
  destruct Hu as (_ & _ & _ & Htok & _ & Hst & Hac & Hen & _ & _ & Hld).
  cbv zeta. unfold next_tokens, active_length, current_length.
  rewrite Hst, Hac, Hen, Hld. split_and!; try done; try lia.
  by apply py_slice_single.
Qed.

(** X5: [update] never overwrites a committed token.  On a context with
    [0 <= active_idx <= end_idx <= size] and a buffer of [size] elements,
    every position below [end_idx] holds after [update] what it held
    before, in chunked prefill and in generation alike. *)
Theorem update_keeps_committed_tokens (new_token : Z)
    (lp : option LogProbabilities) (is_eos : bool) (c : TextContext)
    (k : nat) :
  buffer_ok c ->
  0 <= active_idx c -> active_idx c <= end_idx c -> end_idx c <= size c ->
  Z.of_nat k < end_idx c ->
  tokens (update new_token lp is_eos c).2 !! k = tokens c !! k.
Proof.
  intros Hbuf H0 Hae Hes Hk.
  destruct (Z.lt_ge_cases (active_idx c) (end_idx c)) as [Hlt|Hge].
  - unfold update. destruct (Z.ltb_spec (active_idx c) (end_idx c)); [done|lia].
  - assert (Heq : active_idx c = end_idx c) by lia.
    pose proof (update_generation_spec new_token lp is_eos c Hbuf H0 Heq Hes) as Hu.
    simpl in Hu. destruct Hu as (_ & _ & _ & _ & Hold & _).
    unfold buffer_ok in Hbuf. apply Hold; lia.
Qed.

(** X6: a token the matcher rejects is appended all the same.  With a
    truthy matcher bound, [update] in generation and [jump_ahead] hand
    the token to [accept_token] once and keep the automaton it returns;
    when the token is rejected the call raises [AssertionError] with the
    token already written, [end_idx] already advanced, and
    [is_initial_prompt] left as it was; when it is accepted the call
    returns and [is_initial_prompt] is false. *)
Theorem rejected_token_is_still_appended (new_token : Z)
    (lp : option LogProbabilities) (is_eos : bool) (c : TextContext)
    (m : Matcher) :
  buffer_ok c ->
  0 <= active_idx c -> active_idx c = end_idx c -> end_idx c <= size c ->
  matcher c = Some m -> matcher_truthy m = true ->
  let u := update new_token lp is_eos c in
  let j := jump_ahead new_token c in
  let ok := (accept_token m new_token).1 in
  u.1 = (if ok then Returned tt else Raised AssertionError) /\
  j.1 = (if ok then Returned tt else Raised AssertionError) /\
  matcher u.2 = Some (accept_token m new_token).2 /\
  matcher j.2 = Some (accept_token m new_token).2 /\
  is_initial_prompt u.2 = (if ok then false else is_initial_prompt c) /\
  is_initial_prompt j.2 = (if ok then false else is_initial_prompt c) /\
  tokens u.2 !! Z.to_nat (active_idx c) = Some new_token /\
  tokens j.2 !! Z.to_nat (active_idx c) = Some new_token /\
  end_idx u.2 = end_idx c + 1 /\
  end_idx j.2 = end_idx c + 1.
Proof.
  intros Hbuf H0 Hae Hes Hm Ht.
  pose proof (update_generation_spec new_token lp is_eos c Hbuf H0 Hae Hes) as Hu.
  pose proof (update_generation_matcher new_token lp is_eos c Hbuf H0 Hae Hes) as Hum.
  pose proof (jump_ahead_effect new_token c Hbuf H0 ltac:(lia) Hes) as Hj.
  simpl in Hu, Hj.
  destruct Hu as (Hur & _ & _ & Hut & _ & _ & _ & Hue & _).
  destruct Hj as (Hjr & _ & _ & Hjt & _ & _ & _ & Hje & _ & _ & _ & Hjm).
  unfold matcher_after, matcher_accepts in *. rewrite Hm, Ht in *.
  cbv zeta. destruct Hum as [Hum1 Hum2]. destruct Hjm as [Hjm1 Hjm2].
  by split_and!.
Qed.

(** X7: a write past the grown buffer.  When [active_idx] is at or
    beyond the capacity that [_upsize] leaves, [jump_ahead] (and [update]
    outside chunked prefill) raises [IndexError]: the buffer has grown by
    a chunk if [end_idx] had reached the capacity, and no cursor, ledger
    entry or matcher state has changed. *)
Theorem write_past_buffer_raises (new_token : Z)
    (lp : option LogProbabilities) (is_eos : bool) (c : TextContext) :
  buffer_ok c -> 0 <= size c ->
  grown_size c <= active_idx c ->
  jump_ahead new_token c = (Raised IndexError, _upsize c) /\
  (end_idx c <= active_idx c ->
   update new_token lp is_eos c = (Raised IndexError, _upsize c)) /\
  size (_upsize c) = grown_size c /\
  start_idx (_upsize c) = start_idx c /\
  active_idx (_upsize c) = active_idx c /\
  end_idx (_upsize c) = end_idx c /\
  completion_start_idx (_upsize c) = completion_start_idx c /\
  completion_end_idx (_upsize c) = completion_end_idx c /\
  log_probabilities_data (_upsize c) = log_probabilities_data c /\
  matcher (_upsize c) = matcher c.
Proof.
  intros Hbuf Hs Hact.
  destruct (_upsize_cursors c)
    as (Hsz & Hst & Hac & Hen & Hcs & Hce & Hld & Hm & _ & _).
  destruct (_upsize_buffer c Hbuf Hs) as [Hbuf' _].
  unfold buffer_ok in Hbuf'.
  assert (Hnone : np_setitem (tokens (_upsize c)) (active_idx (_upsize c))
                    new_token = None).
  { unfold np_setitem, np_index. rewrite Hbuf', Hsz, Hac.
    pose proof (grown_size_bounds c) as [Hg _].
    destruct (Z.leb_spec 0 (active_idx c)); [|lia].
    destruct (Z.ltb_spec (active_idx c) (grown_size c)); [lia|].
    destruct (Z.ltb_spec (active_idx c) 0); [lia|].
    simpl. by rewrite andb_false_r. }
  split_and!; try done.
  - unfold jump_ahead. by rewrite Hnone.
  - intros Hge. unfold update.
    destruct (Z.ltb_spec (active_idx c) (end_idx c)); [lia|].
    by rewrite Hnone.
Qed.

(** ** The buffer along call sequences *)

Lemma np_setitem_length (a : list Z) (i v : Z) (buf : list Z) :
  np_setitem a i v = Some buf -> length buf = length a.
Proof.
  unfold np_setitem. destruct (np_index a i); [|done].
  intros [= <-]. apply length_insert.
Qed.

Lemma _upsize_keeps_buffer_ok (c : TextContext) :
  buffer_ok c -> 0 <= size c ->
  buffer_ok (_upsize c) /\ size c <= size (_upsize c).
Proof.
  intros Hbuf Hs. destruct (_upsize_buffer c Hbuf Hs) as [Hbuf' _].
  destruct (_upsize_cursors c) as (Hsz & _).
  pose proof (grown_size_bounds c) as [Hg _].
  split; [done|lia].
Qed.

Lemma update_keeps_buffer_ok (new_token : Z) (lp : option LogProbabilities)
    (is_eos : bool) (c : TextContext) :
  buffer_ok c -> 0 <= size c ->
  buffer_ok (update new_token lp is_eos c).2 /\
  size c <= size (update new_token lp is_eos c).2.
Proof.
  intros Hbuf Hs.
  destruct (_upsize_keeps_buffer_ok c Hbuf Hs) as [Hbuf' Hle].
  unfold update.
  destruct (active_idx c <? end_idx c); [simpl; split; [done|lia]|].
  destruct (np_setitem _ _ _) as [buf|] eqn:Hset; [|done].
  apply np_setitem_length in Hset.
  match goal with
  | |- context [accept_and_finish new_token ?c7] =>
      pose proof (accept_and_finish_spec new_token c7) as Hfin;
      set (r := accept_and_finish new_token c7) in *
  end.
  destruct Hfin as (_ & Hs' & Ht' & _).
  unfold buffer_ok in *. rewrite Hs', Ht'. clear Hs' Ht' r.
  destruct is_eos, lp as [l|]; simpl; try destruct (lp_truthy l); simpl;
    rewrite Hset; split; done.
Qed.

Lemma jump_ahead_keeps_buffer_ok (new_token : Z) (c : TextContext) :
  buffer_ok c -> 0 <= size c ->
  buffer_ok (jump_ahead new_token c).2 /\
  size c <= size (jump_ahead new_token c).2.
Proof.
  intros Hbuf Hs.
  destruct (_upsize_keeps_buffer_ok c Hbuf Hs) as [Hbuf' Hle].
  unfold jump_ahead.
  destruct (np_setitem _ _ _) as [buf|] eqn:Hset; [|done].
  apply np_setitem_length in Hset.
  match goal with
  | |- context [accept_and_finish new_token ?c5] =>
      pose proof (accept_and_finish_spec new_token c5) as Hfin;
      set (r := accept_and_finish new_token c5) in *
  end.
  destruct Hfin as (_ & Hs' & Ht' & _).
  unfold buffer_ok in *. rewrite Hs', Ht'. simpl. by rewrite Hset.
Qed.

Lemma exec_keeps_buffer_ok (o : op) (c : TextContext) :
  buffer_ok c -> 0 <= size c ->
  buffer_ok (exec o c) /\ size c <= size (exec o c).
Proof.
  intros Hbuf Hs. destruct o as [t lp e|t|a b d| | |m].
  - by apply update_keeps_buffer_ok.
  - by apply jump_ahead_keeps_buffer_ok.
  - unfold exec, step, bump_token_indices; simpl.
    destruct (_ >=? _); [done|]. by destruct (_ >? _).
  - done.
  - rewrite exec_drain.
    pose proof (outstanding_completion_tokens_cursors c) as Hu. simpl in Hu.
    destruct Hu as (_ & _ & _ & H4 & H5 & _).
    unfold buffer_ok in *. rewrite H4, H5. split; [done|lia].
  - done.
Qed.

(** X8: the buffer never shrinks and always has [size] elements.  From a
    context whose buffer has [size >= 0] elements, after every call of
    every sequence of calls (calls that raise included) the buffer again
    has exactly [size] elements and [size] is at least what it was. *)
Theorem buffer_along_calls (ops : list op) (c : TextContext) :
  buffer_ok c -> 0 <= size c ->
  Forall (fun c' => buffer_ok c' /\ size c <= size c') (states ops c).
Proof.
  revert c. induction ops as [|o ops IH]; intros c Hbuf Hs; simpl.
  - constructor.
  - destruct (exec_keeps_buffer_ok o c Hbuf Hs) as [Hbuf' Hle].
    constructor; [done|].
    eapply Forall_impl; [apply IH; [done|lia]|].
    simpl. intros c' [? ?]. split; [done|lia].
Qed.

(** ** Growth policy and ledger along call sequences *)

(** Every ledger entry sits at a committed position. *)
Definition ledger_in_window (c : TextContext) : Prop :=
  forall k, is_Some (log_probabilities_data c !! k) -> 0 <= k < end_idx c.

(** A bump that leaves [end_idx] where it is. *)
Definition bump_keeps_end (o : op) : bool :=
  match o with
  | OpBump _ _ d => or_zero d =? 0
  | _ => true
  end.

(** Call sequences whose bumps stay inside the buffer and move only
    [start_idx] and [active_idx]. *)
Fixpoint tame (ops : list op) (c : TextContext) : bool :=
  match ops with
  | [] => true
  | o :: rest =>
      bump_in_bounds o c && bump_keeps_end o && tame rest (exec o c)
  end.

(** The index invariants together with the facts about buffer, capacity
    and ledger that such sequences keep. *)
Definition Inv_strong (c : TextContext) : Prop :=
  Inv c /\ buffer_ok c /\ 0 <= completion_start_idx c /\
  size c < end_idx c + CHUNK_SIZE /\ ledger_in_window c.

Lemma drain_loop_ledger_sub (idxs : list Z) (buf : list Z)
    (ledger : gmap Z LogProbabilities)
    (res : list (Z * option LogProbabilities)) (j : Z) (x : LogProbabilities) :
  (drain_loop idxs buf ledger res).2 !! j = Some x -> ledger !! j = Some x.
Proof.
  revert ledger res. induction idxs as [|i rest IH]; intros ledger res; simpl.
  - done.
  - destruct (np_getitem buf i); [|done].
    intros Hj. apply IH in Hj. by apply lookup_delete_Some in Hj as [_ ?].
Qed.

Lemma outstanding_completion_tokens_ledger_sub (c : TextContext) (j : Z)
    (x : LogProbabilities) :
  log_probabilities_data (outstanding_completion_tokens c).2 !! j = Some x ->
  log_probabilities_data c !! j = Some x.
Proof.
  unfold outstanding_completion_tokens.
  pose proof (drain_loop_ledger_sub
                (py_range (completion_start_idx c) (completion_end_idx c))
                (tokens c) (log_probabilities_data c) [] j x) as Hsub.
  destruct (drain_loop _ _ _ _) as [[res|e] ledger]; simpl in *; exact Hsub.
Qed.

Lemma bump_token_indices_frame (d_start d_active d_end : option Z)
    (c : TextContext) :
  let c' := (bump_token_indices d_start d_active d_end c).2 in
  tokens c' = tokens c /\
  log_probabilities_data c' = log_probabilities_data c /\
  (end_idx c' = end_idx c \/ end_idx c' = or_zero d_end + end_idx c).
Proof.
  unfold bump_token_indices.
  destruct (_ >=? _); simpl; [by split_and!; [| |left]|].
  destruct (_ >? _); simpl; [by split_and!; [| |left]|].
  split_and!; try done. by right.
Qed.

Lemma update_chunk_frame (new_token : Z) (lp : option LogProbabilities)
    (is_eos : bool) (c : TextContext) :
  active_idx c < end_idx c ->
  let c' := (update new_token lp is_eos c).2 in
  tokens c' = tokens c /\ size c' = size c /\
  log_probabilities_data c' = log_probabilities_data c /\
  start_idx c' = active_idx c /\ active_idx c' = end_idx c /\
  end_idx c' = end_idx c /\
  completion_start_idx c' = completion_start_idx c /\
  completion_end_idx c' = completion_end_idx c.
Proof.
  intros Hlt. unfold update.
  destruct (Z.ltb_spec (active_idx c) (end_idx c)); [|lia]. done.
Qed.

Lemma ledger_after_update_in_window (lp : option LogProbabilities)
    (c : TextContext) (k : Z) :
  ledger_in_window c -> 0 <= active_idx c -> active_idx c = end_idx c ->
  is_Some (ledger_after_update lp c !! k) -> 0 <= k < end_idx c + 1.
Proof.
  intros Hled H0 Hae. unfold ledger_after_update.
  assert (Hold : is_Some (log_probabilities_data c !! k) ->
                 0 <= k < end_idx c + 1).
  { intros Hk. specialize (Hled k Hk). lia. }
  destruct lp as [l|]; [|done].
  destruct (lp_truthy l); [|done].
  destruct (decide (active_idx c = k)) as [<-|Hne].
  - intros _. lia.
  - by rewrite lookup_insert_ne.
Qed.

Lemma exec_Inv_strong (o : op) (c : TextContext) :
  Inv_strong c -> bump_in_bounds o c = true -> bump_keeps_end o = true ->
  Inv_strong (exec o c).
Proof.
  intros (HInv & Hbuf & Hcs & Htight & Hled) Hb He.
  pose proof (exec_Inv o c HInv Hb) as HInv'.
  pose proof HInv as (H0 & Hsa & Hae & Hes & Hm & Hc & Hce).
  assert (Hs : 0 <= size c) by lia.
  destruct (exec_keeps_buffer_ok o c Hbuf Hs) as [Hbuf' _].
  split; [done|]. split; [done|].
  destruct o as [t lp e|t|a b d| | |m].
  - unfold exec, step; simpl.
    destruct (Z.lt_ge_cases (active_idx c) (end_idx c)) as [Hlt|Hge].
    + destruct (update_chunk_frame t lp e c Hlt)
        as (_ & Hsz & Hld & _ & _ & Hen & Hcs' & _).
      unfold ledger_in_window. rewrite Hsz, Hld, Hen, Hcs'. done.
    + assert (Heq : active_idx c = end_idx c) by lia.
      pose proof (update_generation_spec t lp e c Hbuf ltac:(lia) Heq Hes) as Hu.
      simpl in Hu.
      destruct Hu as (_ & Hsz & _ & _ & _ & _ & _ & Hen & _ & Hcs' & Hld).
      pose proof (grown_size_bounds c) as [_ Hg].
      unfold ledger_in_window. rewrite Hsz, Hld, Hen, Hcs'.
      split; [done|]. split.
      * unfold grown_size, CHUNK_SIZE in *.
        destruct (Z.geb_spec (end_idx c) (size c)); lia.
      * intros k. apply ledger_after_update_in_window; [done|lia|done].
  - unfold exec, step; simpl.
    pose proof (jump_ahead_effect t c Hbuf ltac:(lia) Hae Hes) as Hu.
    simpl in Hu.
    destruct Hu as (_ & Hsz & _ & _ & _ & _ & _ & Hen & _ & Hcs' & Hld & _).
    unfold ledger_in_window. rewrite Hsz, Hld, Hen, Hcs'.
    split; [done|]. split.
    + unfold grown_size, CHUNK_SIZE in *.
      destruct (Z.geb_spec (end_idx c) (size c)); lia.
    + intros k Hk. specialize (Hled k Hk). lia.
  - unfold exec, step; simpl.
    pose proof (bump_token_indices_cursors a b d c) as Hu.
    pose proof (bump_token_indices_frame a b d c) as Hf.
    simpl in He. apply Z.eqb_eq in He.
    simpl in Hu, Hf.
    destruct Hu as (Hcs' & _ & Hsz & _). destruct Hf as (_ & Hld & Hen).
    assert (Hen' : end_idx (bump_token_indices a b d c).2 = end_idx c)
      by (destruct Hen; lia).
    unfold ledger_in_window. rewrite Hcs', Hsz, Hld, Hen'. done.
  - done.
  - rewrite exec_drain.
    pose proof (outstanding_completion_tokens_cursors c) as Hu. simpl in Hu.
    destruct Hu as (_ & _ & H3 & H4 & _ & _ & _ & _ & _ & H7).
    unfold ledger_in_window. rewrite H3, H4, H7.
    split; [destruct (returned _); lia|]. split; [done|].
    intros k [x Hk]. apply outstanding_completion_tokens_ledger_sub in Hk.
    apply Hled. by exists x.
  - done.
Qed.

Lemma states_Inv_strong (ops : list op) (c : TextContext) :
  Inv_strong c -> tame ops c = true -> Forall Inv_strong (states ops c).
Proof.
  revert c. induction ops as [|o ops IH]; intros c Hc Ht; simpl.
  - constructor.
  - simpl in Ht. apply andb_prop in Ht as [Ht Ht3].
    apply andb_prop in Ht as [Ht1 Ht2].
    pose proof (exec_Inv_strong o c Hc Ht1 Ht2).
    constructor; [done|]. by apply IH.
Qed.

Lemma TextContext_init_Inv_strong (id : Z) (p : string + list Z)
    (ml : option Z) (t : ndarray) (k : Z) (echo : bool) (js : option string)
    (L : nat) (c : TextContext) :
  nd_shape t = [L] ->
  length (nd_data t) = L ->
  TextContext_init id p ml t k echo js = Returned c ->
  Inv_strong c.
Proof.
  intros Hshape Hlen Hinit.
  pose proof (TextContext_init_Inv _ _ _ _ _ _ _ _ Hinit) as HInv.
  destruct (TextContext_init_tokens _ _ _ _ _ _ _ _ _ Hshape Hlen Hinit)
    as (Htok & Hsz & Hen & Hcs & Hld).
  split; [done|]. split_and!.
  - unfold buffer_ok. rewrite Htok, length_app, length_replicate. lia.
  - lia.
  - lia.
  - intros k' [x Hx]. by rewrite Hld in Hx.
Qed.

Lemma chunk_multiple_unique (n sz : Z) :
  sz mod CHUNK_SIZE = 0 -> n <= sz < n + CHUNK_SIZE ->
  sz = ceil_div n CHUNK_SIZE * CHUNK_SIZE.
Proof.
  intros Hm Hb.
  pose proof (ceil_div_chunk_bounds n) as Hc.
  pose proof (ceil_div_chunk_multiple n) as Hcm.
  set (C := ceil_div n CHUNK_SIZE * CHUNK_SIZE) in *.
  unfold CHUNK_SIZE in *.
  apply Z.mod_divide in Hm as [a Ha]; [|lia].
  apply Z.mod_divide in Hcm as [b Hb']; [|lia].
  lia.
Qed.

(** X9: the growth policy.  From a constructed context, along every
    sequence of calls whose bumps stay in bounds and leave [end_idx]
    alone, the capacity after each call is [ceil(end_idx / 128) * 128]:
    the least multiple of the chunk size that holds the committed
    tokens, never a chunk more. *)
Theorem capacity_tracks_end_idx (id : Z) (p : string + list Z)
    (ml : option Z) (t : ndarray) (k : Z) (echo : bool) (js : option string)
    (L : nat) (c0 : TextContext) (ops : list op) :
  nd_shape t = [L] ->
  length (nd_data t) = L ->
  TextContext_init id p ml t k echo js = Returned c0 ->
  tame ops c0 = true ->
  Forall (fun c => size c = ceil_div (end_idx c) CHUNK_SIZE * CHUNK_SIZE
                   /\ buffer_ok c)
    (states ops c0).
Proof.
  intros Hshape Hlen Hinit Ht.
  pose proof (TextContext_init_Inv_strong _ _ _ _ _ _ _ _ _ Hshape Hlen Hinit).
  eapply Forall_impl; [by apply states_Inv_strong|].
  simpl. intros c ((_ & _ & _ & Hes & Hm & _) & Hbuf & _ & Htight & _).
  split; [|done]. apply chunk_multiple_unique; [done|lia].
Qed.

(** X10: ledger entries sit at committed positions.  From a constructed
    context, along every such sequence, every key of the log-probability
    ledger lies in [0, end_idx) after each call. *)
Theorem ledger_keys_are_committed (id : Z) (p : string + list Z)
    (ml : option Z) (t : ndarray) (k : Z) (echo : bool) (js : option string)
    (L : nat) (c0 : TextContext) (ops : list op) :
  nd_shape t = [L] ->
  length (nd_data t) = L ->
  TextContext_init id p ml t k echo js = Returned c0 ->
  tame ops c0 = true ->
  Forall (fun c => forall j, is_Some (log_probabilities_data c !! j) ->
                             0 <= j < end_idx c)
    (states ops c0).
Proof.
  intros Hshape Hlen Hinit Ht.
  pose proof (TextContext_init_Inv_strong _ _ _ _ _ _ _ _ _ Hshape Hlen Hinit).
  eapply Forall_impl; [by apply states_Inv_strong|].
  simpl. by intros c (_ & _ & _ & _ & Hled).
Qed.

(** ** Chunked prefill and forced tokens in sequence *)

(** X11: splitting a prompt loses nothing.  On a context whose window
    [start_idx, active_idx) ends at [end_idx], cutting the window short
    by [k] tokens with [bump_token_indices(active_idx=-k)] and then
    calling [update] gives two windows whose tokens, one after the other,
    are the tokens of the original window; both calls return, the buffer
    is untouched and the second window ends at [end_idx]. *)
Theorem chunked_prefill_split (k new_token : Z)
    (lp : option LogProbabilities) (is_eos : bool) (c : TextContext) :
  buffer_ok c ->
  0 <= start_idx c -> 0 < k -> start_idx c < active_idx c - k ->
  active_idx c = end_idx c -> end_idx c <= size c ->
  let b := bump_token_indices None (Some (- k)) None c in
  let u := update new_token lp is_eos b.2 in
  b.1 = Returned tt /\ u.1 = Returned tt /\
  next_tokens b.2 ++ next_tokens u.2 = next_tokens c /\
  active_length b.2 + active_length u.2 = active_length c /\
  tokens u.2 = tokens c /\
  active_idx u.2 = end_idx c /\ end_idx u.2 = end_idx c.
Proof.
  intros Hbuf H0 Hk Hsk Hae Hes. unfold buffer_ok in Hbuf.
  unfold bump_token_indices. simpl or_zero.
  destruct (Z.eqb_spec (- k) 0); [lia|].
  destruct (Z.geb_spec (0 + start_idx c) (- k + active_idx c)); [lia|].
  destruct (Z.gtb_spec (- k + active_idx c) (0 + end_idx c)); [lia|].
  set (c1 := set_end_idx (0 + end_idx c)
               (set_active_idx (- k + active_idx c)
                  (set_start_idx (0 + start_idx c) c))).
  assert (Hlt : active_idx c1 < end_idx c1) by (subst c1; simpl; lia).
  destruct (update_chunk_frame new_token lp is_eos c1 Hlt)
    as (Ht & _ & _ & Hs' & Ha' & He' & _).
  assert (Hr : (update new_token lp is_eos c1).1 = Returned tt).
  { unfold update. by destruct (Z.ltb_spec (active_idx c1) (end_idx c1)); [|lia]. }
  cbv zeta. cbn [fst snd].
  unfold next_tokens, active_length. rewrite Hr, Ht, Hs', Ha', He'.
  subst c1. simpl. rewrite ?Z.add_0_l.
  split_and!; try done; try lia.
  rewrite Hae. apply py_slice_app; lia.
Qed.

(** X12: a forced token widens the window.  On a context with
    [0 <= active_idx = end_idx <= size] and a buffer of [size] elements,
    [update] with [t1] followed by [jump_ahead] with [t2] leaves the next
    tokens [t1; t2], an active length of 2 and [end_idx] two further. *)
Theorem update_then_jump_ahead (t1 t2 : Z) (lp : option LogProbabilities)
    (is_eos : bool) (c : TextContext) :
  buffer_ok c ->
  0 <= active_idx c -> active_idx c = end_idx c -> end_idx c <= size c ->
  let c1 := (update t1 lp is_eos c).2 in
  let c2 := (jump_ahead t2 c1).2 in
  next_tokens c2 = [t1; t2] /\
  active_length c2 = 2 /\
  end_idx c2 = end_idx c + 2 /\
  completion_end_idx c2 =
    (if is_eos then completion_end_idx c + 1 else completion_end_idx c + 2).
Proof.
  intros Hbuf H0 Hae Hes.
  pose proof (update_generation_spec t1 lp is_eos c Hbuf H0 Hae Hes) as Hu.
  simpl in Hu.
  destruct Hu as (_ & Hsz & Hbuf1 & Htok1 & _ & Hst1 & Hac1 & Hen1 & Hce1 & _).
  destruct (_upsize_makes_room c H0 ltac:(lia) Hes) as [_ Hroom].
  cbv zeta. set (c1 := (update t1 lp is_eos c).2) in *.
  pose proof (jump_ahead_effect t2 c1 Hbuf1 ltac:(lia) ltac:(lia) ltac:(lia)) as Hj.
  simpl in Hj.
  destruct Hj as (_ & _ & _ & Htok2 & Hold & Hst2 & Hac2 & Hen2 & Hce2 & _).
  set (c2 := (jump_ahead t2 c1).2) in *.
  unfold next_tokens, active_length.
  rewrite Hst2, Hac2, Hen2, Hce2, Hst1, Hac1, Hen1, Hce1.
  split_and!; try lia; [|by destruct is_eos; lia].
  rewrite Hac1 in Htok2.
  pose proof (lookup_lt_Some _ _ _ Htok2) as Hlen2.
  pose proof (lookup_lt_Some _ _ _ Htok1) as Hlen1.
  rewrite <- (py_slice_app _ (active_idx c) (active_idx c + 1)) by lia.
  rewrite (py_slice_single _ (active_idx c) t1); [|done|].
  2:{ rewrite Hold; [done|done|]. rewrite Hac1. lia. }
  replace (active_idx c + 1 + 1) with (active_idx c + 1 + 1) by done.
  by rewrite (py_slice_single _ (active_idx c + 1) t2) by (done || lia).
Qed.

(** ** Generating and draining *)

(** The log-probabilities [update] records for a token. *)
Definition kept_lp (lp : option LogProbabilities) : option LogProbabilities :=
  match lp with
  | Some l => if lp_truthy l then Some l else None
  | None => None
  end.

(** A run of [update] calls, none of them an end of sequence. *)
Definition generate (items : list (Z * option LogProbabilities)) : list op :=
  (fun it => OpUpdate it.1 it.2 false) <$> items.

(** What the completion window holds: token and ledger entry of each of
    its positions. *)
Definition pending (c : TextContext) : list (Z * option LogProbabilities) :=
  (fun p => (tokens c !!! Z.to_nat p, log_probabilities_data c !! p))
    <$> py_range (completion_start_idx c) (completion_end_idx c).

(** A context in generation with every committed token either delivered
    or in the completion window. *)
Definition generating (c : TextContext) : Prop :=
  buffer_ok c /\ 0 <= completion_start_idx c /\
  completion_start_idx c <= completion_end_idx c /\
  completion_end_idx c = end_idx c /\ active_idx c = end_idx c /\
  end_idx c <= size c /\ ledger_in_window c.

Lemma drained_items_are_pending (buf : list Z)
    (ledger : gmap Z LogProbabilities) (ps : list Z)
    (res : list (Z * option LogProbabilities)) :
  Forall (fun p => 0 <= p < Z.of_nat (length buf)) ps ->
  Forall2 (drained_item buf ledger) ps res ->
  res = (fun p => (buf !!! Z.to_nat p, ledger !! p)) <$> ps.
Proof.
  intros Hin Hall. induction Hall as [|p [t l] ps res [Hp1 Hp2] Hall IH]; [done|].
  apply Forall_cons in Hin as [Hp Hin]. simpl in *.
  rewrite np_getitem_in_range in Hp1 by done.
  rewrite (list_lookup_total_correct _ _ _ Hp1), <- Hp2. f_equal. by apply IH.
Qed.

Lemma outstanding_completion_tokens_pending (c : TextContext) :
  0 <= completion_start_idx c ->
  completion_end_idx c <= Z.of_nat (length (tokens c)) ->
  (outstanding_completion_tokens c).1 = Returned (pending c).
Proof.
  intros Hlo Hhi.
  assert (Hin : Forall (fun p => 0 <= p < Z.of_nat (length (tokens c)))
                  (py_range (completion_start_idx c) (completion_end_idx c))).
  { apply Forall_forall. intros p Hp%elem_of_py_range. lia. }
  pose proof (drain_loop_in_range _ (tokens c) (log_probabilities_data c) [] Hin)
    as Hret.
  unfold outstanding_completion_tokens, pending.
  destruct (drain_loop _ _ _ _) as [[out|e] ledger] eqn:Hloop; simpl in *; [|done].
  apply drain_loop_returned in Hloop as (items & -> & Hitems & _);
    [|apply NoDup_seqZ].
  simpl. f_equal. by apply drained_items_are_pending.
Qed.

Lemma update_extends_pending (new_token : Z) (lp : option LogProbabilities)
    (c : TextContext) :
  generating c ->
  generating (update new_token lp false c).2 /\
  pending (update new_token lp false c).2
    = pending c ++ [(new_token, kept_lp lp)].
Proof.
  intros (Hbuf & Hcs & Hcc & Hce & Hae & Hes & Hled).
  assert (H0 : 0 <= active_idx c) by lia.
  pose proof (update_generation_spec new_token lp false c Hbuf H0 Hae Hes) as Hu.
  simpl in Hu.
  destruct Hu as (_ & Hsz & Hbuf' & Htok & Hold & _ & Hac' & Hen' & Hce' & Hcs' & Hld').
  destruct (_upsize_makes_room c H0 ltac:(lia) Hes) as [_ Hroom].
  set (c' := (update new_token lp false c).2) in *.
  split.
  - unfold generating. rewrite Hcs', Hce', Hac', Hen', Hsz.
    split_and!; try done; try lia.
    intros k. unfold ledger_in_window. rewrite Hld', Hen'.
    by apply ledger_after_update_in_window.
  - unfold pending, py_range. rewrite Hcs', Hce'.
    replace (completion_end_idx c + 1 - completion_start_idx c)
      with ((completion_end_idx c - completion_start_idx c) + 1) by lia.
    rewrite seqZ_app by lia. rewrite fmap_app. f_equal.
    + apply Forall_fmap_ext_1, Forall_forall. intros p Hp.
      apply elem_of_seqZ in Hp. unfold buffer_ok in Hbuf. f_equal.
      * rewrite !list_lookup_total_alt. f_equal. apply Hold; lia.
      * rewrite Hld'. unfold ledger_after_update.
        destruct lp as [l|]; [|done]. destruct (lp_truthy l); [|done].
        apply lookup_insert_ne. lia.
    + simpl.
      replace (completion_start_idx c
               + (completion_end_idx c - completion_start_idx c))
        with (active_idx c) by lia.
      rewrite (list_lookup_total_correct _ _ _ Htok), Hld'. do 2 f_equal.
      assert (Hnone : log_probabilities_data c !! active_idx c = None).
      { destruct (log_probabilities_data c !! active_idx c) eqn:Hl; [|done].
        specialize (Hled (active_idx c) ltac:(by eexists)). lia. }
      unfold ledger_after_update, kept_lp.
      destruct lp as [l|]; [|done]. destruct (lp_truthy l); [|done].
      apply lookup_insert_eq.
Qed.

Lemma generate_extends_pending (items : list (Z * option LogProbabilities))
    (c : TextContext) :
  generating c ->
  generating (run (generate items) c) /\
  pending (run (generate items) c)
    = pending c ++ ((fun it => (it.1, kept_lp it.2)) <$> items).
Proof.
  revert c. induction items as [|[t l] items IH]; intros c Hc; simpl.
  - by rewrite app_nil_r.
  - destruct (update_extends_pending t l c Hc) as [Hc' Hp].
    destruct (IH _ Hc') as [Hc'' Hp']. split; [done|].
    unfold exec, step in *. simpl in *. rewrite Hp', Hp.
    by rewrite <- app_assoc.
Qed.

(** X13: what is generated is what is drained.  On a context in
    generation whose completion window reaches [end_idx] and whose ledger
    keys are committed positions, after any run of [update] calls without
    end of sequence a drain returns what was pending before, followed by
    the generated tokens in order, each with the log-probabilities passed
    for it (none when they were absent or falsy). *)
Theorem generate_then_drain (items : list (Z * option LogProbabilities))
    (c : TextContext) :
  buffer_ok c ->
  0 <= completion_start_idx c ->
  completion_start_idx c <= completion_end_idx c ->
  completion_end_idx c = end_idx c -> active_idx c = end_idx c ->
  end_idx c <= size c ->
  (forall k, is_Some (log_probabilities_data c !! k) -> 0 <= k < end_idx c) ->
  (outstanding_completion_tokens (run (generate items) c)).1
    = Returned (pending c ++ ((fun it => (it.1, kept_lp it.2)) <$> items)).
Proof.
  intros Hbuf Hcs Hcc Hce Hae Hes Hled.
  destruct (generate_extends_pending items c) as [Hg Hp]; [by split_and!|].
  destruct Hg as (Hbuf' & Hcs' & _ & Hce' & _ & Hes' & _).
  rewrite <- Hp. apply outstanding_completion_tokens_pending; [done|].
  unfold buffer_ok in Hbuf'. lia.
Qed.

(** ** What growth puts into the new chunk *)

Lemma np_resize_lookup (a : list Z) (n : Z) (k : nat) :
  a <> [] -> Z.of_nat k < n ->
  np_resize a n !! k = a !! (k mod length a)%nat.
Proof.
  intros Ha Hk. destruct a as [|x a]; [done|].
  unfold np_resize. rewrite list_lookup_fmap, lookup_seq_lt by lia.
  cbn [fmap option_fmap option_map]. rewrite Nat.add_0_l.
  assert (Hlt : (k mod length (x :: a) < length (x :: a))%nat)
    by (apply Nat.mod_upper_bound; simpl; lia).
  destruct (lookup_lt_is_Some_2 _ _ Hlt) as [y Hy].
  rewrite Hy. f_equal. by apply list_lookup_total_correct.
Qed.

(** X15: growth does not zero the new chunk.  When [_upsize] grows a
    non-empty buffer of [size] elements, position [size + j] of the new
    buffer holds what position [j mod size] held, for every [j] below the
    chunk size; the old positions are unchanged.  Only an empty buffer
    grows into zeros. *)
Theorem _upsize_fills_with_copies (c : TextContext) (j : nat) :
  buffer_ok c -> size c <= end_idx c ->
  (j < Z.to_nat CHUNK_SIZE)%nat ->
  (0 < size c ->
   tokens (_upsize c) !! (Z.to_nat (size c) + j)%nat
     = tokens c !! (j mod Z.to_nat (size c))%nat) /\
  (size c = 0 -> tokens (_upsize c) = replicate (Z.to_nat CHUNK_SIZE) 0).
Proof.
  intros Hbuf Hfull Hj. unfold buffer_ok in Hbuf. unfold _upsize.
  destruct (Z.geb_spec (end_idx c) (size c)); [|lia]. simpl.
  split.
  - intros Hpos. assert (Hne : tokens c <> []).
    { intros Hnil. rewrite Hnil in Hbuf. simpl in Hbuf. lia. }
    rewrite np_resize_lookup by (done || unfold CHUNK_SIZE in *; lia).
    replace (length (tokens c)) with (Z.to_nat (size c)) by lia.
    f_equal.
    rewrite Nat.add_comm, <- (Nat.mul_1_l (Z.to_nat (size c))) at 1.
    apply Nat.Div0.mod_add.
  - intros Hz. destruct (tokens c) as [|x l]; [|simpl in Hbuf; lia].
    by rewrite Hz.
Qed.

(** ** The empty prompt *)

(** X16: an empty prompt gives a context without buffer, and the first
    token makes one.  Built from an empty one-dimensional array, the
    context has capacity 0, an empty buffer and an empty window; a bump
    without deltas raises [ValueError]; the first [update] grows the
    buffer to one chunk of zeros with the token in front, and the token
    is the next window. *)
Theorem empty_prompt_first_update (id : Z) (p : string + list Z)
    (ml : option Z) (k : Z) (echo : bool) (js : option string)
    (new_token : Z) (lp : option LogProbabilities) (is_eos : bool) :
  exists c,
    TextContext_init id p ml (mk_ndarray [0%nat] []) k echo js = Returned c /\
    size c = 0 /\ tokens c = [] /\ next_tokens c = [] /\
    bump_token_indices None None None c = (Raised ValueError, c) /\
    (update new_token lp is_eos c).1 = Returned tt /\
    size (update new_token lp is_eos c).2 = CHUNK_SIZE /\
    tokens (update new_token lp is_eos c).2
      = new_token :: replicate (Z.to_nat CHUNK_SIZE - 1) 0 /\
    next_tokens (update new_token lp is_eos c).2 = [new_token] /\
    end_idx (update new_token lp is_eos c).2 = 1.
Proof.
  eexists. split; [reflexivity|].
  split; [reflexivity|]. split; [reflexivity|]. split; [reflexivity|].
  split; [reflexivity|].
  unfold update, accept_and_finish. simpl.
  destruct is_eos, lp as [l|]; simpl; try destruct (lp_truthy l); simpl;
    by split_and!.
Qed.

(** ** Undoing a bump *)

Lemma or_zero_opp (x : option Z) : or_zero (Z.opp <$> x) = - or_zero x.
Proof.
  destruct x as [v|]; simpl; [|done].
  destruct (Z.eqb_spec (- v) 0), (Z.eqb_spec v 0); lia.
Qed.

(** X17: a bump can be taken back.  When the window is non-empty and
    inside [end_idx] and a bump returns, the bump by the opposite deltas
    returns too and restores the context exactly. *)
Theorem bump_token_indices_undo (d_start d_active d_end : option Z)
    (c : TextContext) :
  start_idx c < active_idx c -> active_idx c <= end_idx c ->
  (bump_token_indices d_start d_active d_end c).1 = Returned tt ->
  bump_token_indices (Z.opp <$> d_start) (Z.opp <$> d_active)
    (Z.opp <$> d_end) (bump_token_indices d_start d_active d_end c).2
    = (Returned tt, c).
Proof.
  destruct c as [id p ml sz buf ac st en cs ce lpn echo led mt js ini].
  simpl. intros Hsa Hae.
  unfold bump_token_indices at 1 3. simpl.
  destruct (Z.geb_spec (or_zero d_start + st) (or_zero d_active + ac)); [done|].
  destruct (Z.gtb_spec (or_zero d_active + ac) (or_zero d_end + en)); [done|].
  intros _. simpl.
  unfold bump_token_indices. rewrite !or_zero_opp. simpl.
  destruct (Z.geb_spec (- or_zero d_start + (or_zero d_start + st))
              (- or_zero d_active + (or_zero d_active + ac))); [lia|].
  destruct (Z.gtb_spec (- or_zero d_active + (or_zero d_active + ac))
              (- or_zero d_end + (or_zero d_end + en))); [lia|].
  cbv beta iota delta [set_start_idx set_active_idx set_end_idx
       cache_seq_id prompt max_length size tokens
       start_idx active_idx end_idx
       completion_start_idx completion_end_idx
       log_probabilities log_probabilities_echo
       log_probabilities_data matcher json_schema is_initial_prompt].
  f_equal. f_equal; lia.
Qed.
End Context.

Arguments mkTextContext {_ _}.
Arguments mkTextAndVisionContext {_ _ _}.
Arguments OpUpdate {_ _}.
Arguments OpJumpAhead {_ _}.
Arguments OpBump {_ _}.
Arguments OpReset {_ _}.
Arguments OpDrain {_ _}.
Arguments tokens {_ _}.
Arguments size {_ _}.
Arguments start_idx {_ _}.
Arguments active_idx {_ _}.
Arguments end_idx {_ _}.
Arguments completion_start_idx {_ _}.
Arguments completion_end_idx {_ _}.
Arguments pixel_values {_ _ _}.
Arguments Inv {_ _}.
Arguments Inv_core {_ _}.
Arguments buffer_ok {_ _}.
Arguments reset {_ _}.
Arguments next_tokens {_ _}.
Arguments active_length {_ _}.
Arguments current_length {_ _}.
Arguments outstanding_completion_tokens {_ _}.

(** * Concrete runs *)

(** An instance of the parameters: a log-probability record is a number
    and always truthy; the matcher counts the tokens it has seen and
    accepts the non-negative ones. *)
Definition demo_lp_truthy (_ : Z) : bool := true.
Definition demo_matcher_truthy (_ : Z) : bool := true.
Definition demo_accept_token (m : Z) (t : Z) : bool * Z := (0 <=? t, m + 1).

Definition demo_init (data : list Z) : outcome (TextContext Z Z) :=
  TextContext_init Z Z 0 (inr data) None (mk_ndarray [length data] data)
    0 false None.

Definition demo_update :=
  update Z demo_lp_truthy Z demo_matcher_truthy demo_accept_token.
Definition demo_jump_ahead :=
  jump_ahead Z Z demo_matcher_truthy demo_accept_token.
Definition demo_exec :=
  exec Z demo_lp_truthy Z demo_matcher_truthy demo_accept_token.
Definition demo_run :=
  run Z demo_lp_truthy Z demo_matcher_truthy demo_accept_token.
Definition demo_states :=
  states Z demo_lp_truthy Z demo_matcher_truthy demo_accept_token.
Definition demo_drains :=
  drains Z demo_lp_truthy Z demo_matcher_truthy demo_accept_token.

(** The context built from the one-token prompt [[1]]. *)
Definition ctx_one : TextContext Z Z :=
  mkTextContext 0 (inr [1]) None 128 (1 :: replicate 127 0)
    1 0 1 1 1 0 false ∅ None None true.

(** The context built from the prompt [[1; 2; 3; 4]], and the same after
    the scheduler has cut the first chunk down to two tokens. *)
Definition ctx_four : TextContext Z Z :=
  mkTextContext 0 (inr [1; 2; 3; 4]) None 128 ([1; 2; 3; 4] ++ replicate 124 0)
    4 0 4 4 4 0 false ∅ None None true.

Definition ctx_four_chunked : TextContext Z Z :=
  demo_exec (OpBump None (Some (-2)) None) ctx_four.

(** [ctx_one] after an end-of-sequence token 99. *)
Definition ctx_one_eos : TextContext Z Z :=
  (demo_update 99 None true ctx_one).2.

(** A vision context over [ctx_one] with one 2x2 image. *)
Definition vision_one : TextAndVisionContext Z Z Z :=
  mkTextAndVisionContext ctx_one [mk_ndarray [2%nat; 2%nat] [1; 2; 3; 4]] ∅.

(** [vision_one] after a first generated token. *)
Definition vision_one_updated : TextAndVisionContext Z Z Z :=
  (vision_update Z demo_lp_truthy Z demo_matcher_truthy demo_accept_token Z
     5 None false vision_one).2.

Lemma demo_init_one : demo_init [1] = Returned ctx_one.
Proof. vm_compute. reflexivity. Qed.

Lemma demo_init_four : demo_init [1; 2; 3; 4] = Returned ctx_four.
Proof. vm_compute. reflexivity. Qed.

(** ** Instances of the theorems *)

Lemma invariants_along_calls_witness :
  Inv ctx_one /\
  Forall Inv_core (demo_states [OpUpdate 5 None false; OpDrain] ctx_one) /\
  Forall Inv (demo_states [OpUpdate 5 None false; OpDrain] ctx_one).
Proof.
  destruct (invariants_along_calls Z demo_lp_truthy Z demo_matcher_truthy
              demo_accept_token 0 (inr [1]) None (mk_ndarray [1%nat] [1])
              0 false None ctx_one [OpUpdate 5 None false; OpDrain]
              eq_refl) as (H1 & H2 & H3).
  split; [exact H1|]. split; [exact H2|]. apply H3. reflexivity.
Defined.

Lemma update_chunked_prefill_witness :
  active_idx ctx_four_chunked < end_idx ctx_four_chunked /\
  start_idx (demo_update 9 (Some 3) true ctx_four_chunked).2 = 2 /\
  active_idx (demo_update 9 (Some 3) true ctx_four_chunked).2 = 4 /\
  tokens (demo_update 9 (Some 3) true ctx_four_chunked).2
    = tokens ctx_four_chunked.
Proof.
  assert (Hlt : active_idx ctx_four_chunked < end_idx ctx_four_chunked)
    by reflexivity.
  destruct (update_chunked_prefill Z demo_lp_truthy Z demo_matcher_truthy
              demo_accept_token 9 (Some 3) true ctx_four_chunked Hlt)
    as (_ & H1 & H2 & _ & _ & _ & _ & H3 & _).
  split; [exact Hlt|]. split; [exact H1|]. split; [exact H2|exact H3].
Defined.

Lemma update_eos_spec_witness :
  tokens ctx_one_eos !! 1%nat = Some 99 /\
  end_idx ctx_one_eos = 2 /\
  completion_end_idx ctx_one_eos = 1 /\
  Forall (fun ps => 1 ∉ ps)
    (demo_drains [OpDrain; OpReset; OpBump None None (Some 3);
                  OpUpdate 4 None false; OpDrain] ctx_one_eos).
Proof.
  assert (H0 : 0 <= active_idx ctx_one) by (simpl; lia).
  assert (Hes : end_idx ctx_one <= size ctx_one) by (simpl; lia).
  assert (Hce : completion_end_idx ctx_one <= end_idx ctx_one) by (simpl; lia).
  destruct (update_eos_spec Z demo_lp_truthy Z demo_matcher_truthy
              demo_accept_token 99 None ctx_one eq_refl H0 eq_refl Hes Hce)
    as (H1 & H2 & H3 & H4).
  split; [exact H1|]. split; [exact H2|]. split; [exact H3|].
  apply H4. reflexivity.
Defined.

Lemma jump_ahead_spec_witness :
  active_idx (demo_jump_ahead 7 ctx_one).2 = 2 /\
  end_idx (demo_jump_ahead 7 ctx_one).2 = 2 /\
  completion_end_idx (demo_jump_ahead 7 ctx_one).2 = 2 /\
  start_idx (demo_jump_ahead 7 ctx_one).2 = 0 /\
  tokens (demo_jump_ahead 7 ctx_one).2 !! 1%nat = Some 7 /\
  active_length (demo_jump_ahead 7 ctx_one).2 = active_length ctx_one + 1.
Proof.
  assert (H0 : 0 <= active_idx ctx_one) by (simpl; lia).
  assert (Hae : active_idx ctx_one <= end_idx ctx_one) by (simpl; lia).
  assert (Hes : end_idx ctx_one <= size ctx_one) by (simpl; lia).
  destruct (jump_ahead_spec Z Z demo_matcher_truthy demo_accept_token
              7 ctx_one eq_refl H0 Hae Hes)
    as (_ & _ & _ & Ht & _ & Ha & He & Hc & Hs & _ & _ & Hl & _).
  split; [exact Ha|]. split; [exact He|]. split; [exact Hc|].
  split; [exact Hs|]. split; [exact Ht|exact Hl].
Defined.

Lemma TextContext_init_roundtrip_witness :
  exists c : TextContext Z Z,
    demo_init [5; 6; 7] = Returned c /\
    active_length c = 3 /\ current_length c = 3 /\
    next_tokens c = [5; 6; 7] /\ size c = 128.
Proof.
  destruct (TextContext_init_roundtrip Z Z 0 (inr [5; 6; 7]) None
              (mk_ndarray [3%nat] [5; 6; 7]) 0 false None 3 eq_refl eq_refl)
    as (c & Hc & Ha & Hl & Hn & Hs & _).
  exists c. split; [exact Hc|]. split; [exact Ha|]. split; [exact Hl|].
  split; [exact Hn|exact Hs].
Defined.

Lemma vision_update_one :
  vision_update Z demo_lp_truthy Z demo_matcher_truthy demo_accept_token Z
    5 None false vision_one = (Returned tt, vision_one_updated).
Proof. vm_compute. reflexivity. Qed.

Lemma vision_update_clears_pixel_values_witness :
  pixel_values vision_one <> [] /\
  pixel_values vision_one_updated = [] /\
  pixel_values
    (vision_run Z demo_lp_truthy Z demo_matcher_truthy demo_accept_token Z
       [OpUpdate 6 None false; OpReset; OpUpdate 7 None true]
       vision_one_updated) = [].
Proof.
  destruct (vision_update_clears_pixel_values Z demo_lp_truthy Z
              demo_matcher_truthy demo_accept_token Z 5 None false vision_one
              vision_one_updated vision_update_one)
    as [H1 H2].
  split; [discriminate|]. split; [exact H1|apply H2].
Defined.


(** ** Where the stated properties fail *)

(** C1: a bump of [end_idx] by 200 on the context built from a one-token
    prompt passes both checks and leaves [end_idx = 201] over a buffer of
    128 elements. *)
Lemma invariants_broken_by_bump :
  demo_init [1] = Returned ctx_one /\
  end_idx (demo_exec (OpBump None None (Some 200)) ctx_one) = 201 /\
  size (demo_exec (OpBump None None (Some 200)) ctx_one) = 128 /\
  ~ Forall Inv (demo_states [OpBump None None (Some 200)] ctx_one).
Proof.
  split; [exact demo_init_one|].
  split; [vm_compute; reflexivity|]. split; [vm_compute; reflexivity|].
  intros H. apply Forall_cons in H as [(_ & _ & _ & Hes & _) _].
  vm_compute in Hes. by apply Hes.
Qed.

(** C3: after the end-of-sequence token 99 at position 1, a further
    generated token moves [completion_end_idx] to 2, and the next drain
    returns position 1, the token 99. *)
Lemma eos_token_drained_after_append :
  active_idx ctx_one = end_idx ctx_one /\
  Inv ctx_one /\ buffer_ok ctx_one /\
  tokens ctx_one_eos !! Z.to_nat (active_idx ctx_one) = Some 99 /\
  demo_drains [OpUpdate 7 None false; OpDrain] ctx_one_eos = [[1]] /\
  (outstanding_completion_tokens
     (demo_run [OpUpdate 7 None false] ctx_one_eos)).1
    = Returned [(99, None)] /\
  ~ Forall (fun ps => active_idx ctx_one ∉ ps)
      (demo_drains [OpUpdate 7 None false; OpDrain] ctx_one_eos).
Proof.
  assert (Hd : demo_drains [OpUpdate 7 None false; OpDrain] ctx_one_eos = [[1]])
    by (vm_compute; reflexivity).
  split; [reflexivity|]. split.
  { unfold Inv. simpl. unfold CHUNK_SIZE. split_and!; try lia. reflexivity. }
  split; [vm_compute; reflexivity|]. split; [vm_compute; reflexivity|].
  split; [exact Hd|]. split; [vm_compute; reflexivity|].
  rewrite Hd. intros H. apply Forall_cons in H as [H _].
  apply H. apply list_elem_of_here.
Qed.

(** C6: in the middle of a chunked prefill, with [active_idx = 2] and
    [end_idx = 4], the next tokens after [reset] are the first two, not
    the four up to [end_idx]. *)
Lemma reset_window_stops_at_active_idx :
  demo_init [1; 2; 3; 4] = Returned ctx_four /\
  next_tokens (reset ctx_four_chunked) = [1; 2] /\
  py_slice (tokens (reset ctx_four_chunked)) 0
    (end_idx (reset ctx_four_chunked)) = [1; 2; 3; 4] /\
  next_tokens (reset ctx_four_chunked)
    <> py_slice (tokens (reset ctx_four_chunked)) 0
         (end_idx (reset ctx_four_chunked)).
Proof.
  assert (Hn : next_tokens (reset ctx_four_chunked) = [1; 2])
    by (vm_compute; reflexivity).
  assert (Hs : py_slice (tokens (reset ctx_four_chunked)) 0
                 (end_idx (reset ctx_four_chunked)) = [1; 2; 3; 4])
    by (vm_compute; reflexivity).
  split; [exact demo_init_four|]. split; [exact Hn|]. split; [exact Hs|].
  rewrite Hn, Hs. discriminate.
Qed.

(** ** Further concrete runs *)

(** [ctx_one] with the counting matcher bound. *)
Definition ctx_one_matched : TextContext Z Z := set_matcher Z Z 0 ctx_one.

(** [ctx_one] after a bump of [active_idx] and [end_idx] far past the
    buffer. *)
Definition ctx_one_far : TextContext Z Z :=
  demo_exec (OpBump None (Some 300) (Some 300)) ctx_one.

(** [ctx_one] after one generated token with log-probabilities. *)
Definition ctx_one_generated : TextContext Z Z :=
  demo_run [OpUpdate 5 (Some 3) false] ctx_one.

(** A context whose 128 committed tokens 1, ..., 128 fill the buffer. *)
Definition ctx_full : TextContext Z Z :=
  mkTextContext 0 (inr []) None 128 (seqZ 1 128)
    128 0 128 128 128 0 false ∅ None None true.

Definition demo_ops : list (op Z Z) :=
  [OpUpdate 5 (Some 3) false; OpJumpAhead 6; OpBump (Some 1) None None;
   OpDrain; OpReset; OpUpdate 7 None true].

Lemma ctx_one_buffer_ok : buffer_ok ctx_one.
Proof. vm_compute. reflexivity. Qed.

Lemma ctx_four_buffer_ok : buffer_ok ctx_four.
Proof. vm_compute. reflexivity. Qed.

Lemma ctx_one_far_buffer_ok : buffer_ok ctx_one_far.
Proof. vm_compute. reflexivity. Qed.

Lemma ctx_full_buffer_ok : buffer_ok ctx_full.
Proof. vm_compute. reflexivity. Qed.

Lemma ctx_one_far_cursors :
  0 <= size ctx_one_far /\
  grown_size Z Z ctx_one_far <= active_idx ctx_one_far /\
  end_idx ctx_one_far <= active_idx ctx_one_far.
Proof. vm_compute. by split_and!. Qed.

Lemma ctx_one_generated_drain :
  (outstanding_completion_tokens ctx_one_generated).1 = Returned [(5, Some 3)].
Proof. vm_compute. reflexivity. Qed.

Lemma demo_ops_tame :
  tame Z demo_lp_truthy Z demo_matcher_truthy demo_accept_token
    demo_ops ctx_one = true.
Proof. vm_compute. reflexivity. Qed.

Lemma ctx_four_bump_returns :
  (bump_token_indices Z Z None (Some (-2)) None ctx_four).1 = Returned tt.
Proof. vm_compute. reflexivity. Qed.

Lemma TextContext_init_buffer_witness :
  tokens ctx_one = [1] ++ replicate 127 0 /\
  buffer_ok ctx_one /\
  tokens ctx_one !! 5%nat = Some 0.
Proof.
  destruct (TextContext_init_buffer Z Z 0 (inr [1]) None
              (mk_ndarray [1%nat] [1]) 0 false None 1 ctx_one
              eq_refl eq_refl demo_init_one) as (H1 & H2 & H3).
  split; [exact H1|]. split; [exact H2|].
  apply H3; [lia|reflexivity].
Defined.

Lemma outstanding_completion_tokens_twice_witness :
  outstanding_completion_tokens
    (outstanding_completion_tokens ctx_one_generated).2
  = (Returned [], (outstanding_completion_tokens ctx_one_generated).2).
Proof.
  exact (outstanding_completion_tokens_twice Z Z ctx_one_generated
           [(5, Some 3)] ctx_one_generated_drain).
Defined.

Lemma update_generation_window_witness :
  next_tokens (demo_update 5 (Some 3) false ctx_one).2 = [5] /\
  active_length (demo_update 5 (Some 3) false ctx_one).2 = 1 /\
  current_length (demo_update 5 (Some 3) false ctx_one).2
    = current_length ctx_one + 1.
Proof.
  assert (H0 : 0 <= active_idx ctx_one) by (simpl; lia).
  assert (Hes : end_idx ctx_one <= size ctx_one) by (simpl; lia).
  destruct (update_generation_window Z demo_lp_truthy Z demo_matcher_truthy
              demo_accept_token 5 (Some 3) false ctx_one
              ctx_one_buffer_ok H0 eq_refl Hes) as (H1 & H2 & H3 & _).
  split; [exact H1|]. split; [exact H2|exact H3].
Defined.

Lemma update_keeps_committed_tokens_witness :
  tokens (demo_update 5 None false ctx_one).2 !! 0%nat = tokens ctx_one !! 0%nat.
Proof.
  assert (H0 : 0 <= active_idx ctx_one) by (simpl; lia).
  assert (Hae : active_idx ctx_one <= end_idx ctx_one) by (simpl; lia).
  assert (Hes : end_idx ctx_one <= size ctx_one) by (simpl; lia).
  assert (Hk : Z.of_nat 0 < end_idx ctx_one) by (simpl; lia).
  exact (update_keeps_committed_tokens Z demo_lp_truthy Z demo_matcher_truthy
           demo_accept_token 5 None false ctx_one 0 ctx_one_buffer_ok
           H0 Hae Hes Hk).
Defined.

Lemma rejected_token_is_still_appended_witness :
  (demo_update (-5) None false ctx_one_matched).1 = Raised AssertionError /\
  tokens (demo_update (-5) None false ctx_one_matched).2
    !! Z.to_nat (active_idx ctx_one_matched) = Some (-5) /\
  end_idx (demo_update (-5) None false ctx_one_matched).2
    = end_idx ctx_one_matched + 1.
Proof.
  assert (H0 : 0 <= active_idx ctx_one_matched) by (simpl; lia).
  assert (Hes : end_idx ctx_one_matched <= size ctx_one_matched)
    by (simpl; lia).
  destruct (rejected_token_is_still_appended Z demo_lp_truthy Z
              demo_matcher_truthy demo_accept_token (-5) None false
              ctx_one_matched 0 ctx_one_buffer_ok H0 eq_refl Hes
              eq_refl eq_refl)
    as (H1 & _ & _ & _ & _ & _ & H2 & _ & H3 & _).
  split; [exact H1|]. split; [exact H2|exact H3].
Defined.

Lemma write_past_buffer_raises_witness :
  demo_jump_ahead 9 ctx_one_far = (Raised IndexError, _upsize Z Z ctx_one_far) /\
  demo_update 9 None false ctx_one_far
    = (Raised IndexError, _upsize Z Z ctx_one_far) /\
  size (_upsize Z Z ctx_one_far) = grown_size Z Z ctx_one_far.
Proof.
  destruct ctx_one_far_cursors as (Hs & Hg & He).
  destruct (write_past_buffer_raises Z demo_lp_truthy Z demo_matcher_truthy
              demo_accept_token 9 None false ctx_one_far
              ctx_one_far_buffer_ok Hs Hg) as (H1 & H2 & H3 & _).
  split; [exact H1|]. split; [exact (H2 He)|exact H3].
Defined.

Lemma buffer_along_calls_witness :
  Forall (fun c' => buffer_ok c' /\ size ctx_one <= size c')
    (demo_states
       [OpBump None None (Some 200); OpJumpAhead 3; OpUpdate 4 None false]
       ctx_one).
Proof.
  assert (Hs : 0 <= size ctx_one) by (simpl; lia).
  exact (buffer_along_calls Z demo_lp_truthy Z demo_matcher_truthy
           demo_accept_token
           [OpBump None None (Some 200); OpJumpAhead 3; OpUpdate 4 None false]
           ctx_one ctx_one_buffer_ok Hs).
Defined.

Lemma capacity_tracks_end_idx_witness :
  Forall (fun c => size c = ceil_div (end_idx c) CHUNK_SIZE * CHUNK_SIZE
                   /\ buffer_ok c)
    (demo_states demo_ops ctx_one).
Proof.
  exact (capacity_tracks_end_idx Z demo_lp_truthy Z demo_matcher_truthy
           demo_accept_token 0 (inr [1]) None (mk_ndarray [1%nat] [1])
           0 false None 1 ctx_one demo_ops eq_refl eq_refl demo_init_one
           demo_ops_tame).
Defined.

Lemma ledger_keys_are_committed_witness :
  Forall (fun c => forall j, is_Some (log_probabilities_data Z Z c !! j) ->
                             0 <= j < end_idx c)
    (demo_states demo_ops ctx_one).
Proof.
  exact (ledger_keys_are_committed Z demo_lp_truthy Z demo_matcher_truthy
           demo_accept_token 0 (inr [1]) None (mk_ndarray [1%nat] [1])
           0 false None 1 ctx_one demo_ops eq_refl eq_refl demo_init_one
           demo_ops_tame).
Defined.

Lemma chunked_prefill_split_witness :
  next_tokens (bump_token_indices Z Z None (Some (- 2)) None ctx_four).2
  ++ next_tokens
       (demo_update 9 None false
          (bump_token_indices Z Z None (Some (- 2)) None ctx_four).2).2
  = next_tokens ctx_four.
Proof.
  assert (H0 : 0 <= start_idx ctx_four) by (simpl; lia).
  assert (Hk : 0 < 2) by lia.
  assert (Hsk : start_idx ctx_four < active_idx ctx_four - 2) by (simpl; lia).
  assert (Hes : end_idx ctx_four <= size ctx_four) by (simpl; lia).
  destruct (chunked_prefill_split Z demo_lp_truthy Z demo_matcher_truthy
              demo_accept_token 2 9 None false ctx_four
              ctx_four_buffer_ok H0 Hk Hsk eq_refl Hes) as (_ & _ & H & _).
  exact H.
Defined.

Lemma update_then_jump_ahead_witness :
  next_tokens (demo_jump_ahead 6 (demo_update 5 None false ctx_one).2).2
    = [5; 6] /\
  active_length (demo_jump_ahead 6 (demo_update 5 None false ctx_one).2).2 = 2.
Proof.
  assert (H0 : 0 <= active_idx ctx_one) by (simpl; lia).
  assert (Hes : end_idx ctx_one <= size ctx_one) by (simpl; lia).
  destruct (update_then_jump_ahead Z demo_lp_truthy Z demo_matcher_truthy
              demo_accept_token 5 6 None false ctx_one
              ctx_one_buffer_ok H0 eq_refl Hes) as (H1 & H2 & _).
  split; [exact H1|exact H2].
Defined.

Lemma generate_then_drain_witness :
  (outstanding_completion_tokens
     (demo_run (generate Z Z [(5, Some 3); (6, None)]) ctx_one)).1
  = Returned (pending Z Z ctx_one
              ++ ((fun it => (it.1, kept_lp Z demo_lp_truthy it.2))
                    <$> [(5, Some 3); (6, None)])).
Proof.
  assert (Hcs : 0 <= completion_start_idx ctx_one) by (simpl; lia).
  assert (Hcc : completion_start_idx ctx_one <= completion_end_idx ctx_one)
    by (simpl; lia).
  assert (Hes : end_idx ctx_one <= size ctx_one) by (simpl; lia).
  assert (Hled : forall k, is_Some (log_probabilities_data Z Z ctx_one !! k) ->
                           0 <= k < end_idx ctx_one).
  { intros k [x Hx]. simpl in Hx. rewrite lookup_empty in Hx. discriminate Hx. }
  exact (generate_then_drain Z demo_lp_truthy Z demo_matcher_truthy
           demo_accept_token [(5, Some 3); (6, None)] ctx_one
           ctx_one_buffer_ok Hcs Hcc eq_refl eq_refl Hes Hled).
Defined.

Lemma _upsize_fills_with_copies_witness :
  tokens (_upsize Z Z ctx_full) !! (Z.to_nat (size ctx_full) + 3)%nat
    = tokens ctx_full !! (3 mod Z.to_nat (size ctx_full))%nat.
Proof.
  assert (Hfull : size ctx_full <= end_idx ctx_full) by (simpl; lia).
  assert (Hj : (3 < Z.to_nat CHUNK_SIZE)%nat) by (vm_compute; lia).
  assert (Hpos : 0 < size ctx_full) by (simpl; lia).
  destruct (_upsize_fills_with_copies Z Z ctx_full 3 ctx_full_buffer_ok
              Hfull Hj) as [H _].
  exact (H Hpos).
Defined.

Lemma bump_token_indices_undo_witness :
  bump_token_indices Z Z (Z.opp <$> None) (Z.opp <$> Some (-2))
    (Z.opp <$> None)
    (bump_token_indices Z Z None (Some (-2)) None ctx_four).2
  = (Returned tt, ctx_four).
Proof.
  assert (Hsa : start_idx ctx_four < active_idx ctx_four) by (simpl; lia).
  assert (Hae : active_idx ctx_four <= end_idx ctx_four) by (simpl; lia).
  exact (bump_token_indices_undo Z Z None (Some (-2)) None ctx_four
           Hsa Hae ctx_four_bump_returns).
Defined.

(** ** Where two more stated properties fail *)



(** C5: after a bump that passed both checks and left [active_idx] and
    [end_idx] at 301 over a buffer of 128 elements, [jump_ahead] grows
    the buffer to 256 and raises [IndexError]: the token is not written
    and no cursor has moved. *)
Lemma jump_ahead_raises_past_buffer :
  demo_init [1] = Returned ctx_one /\
  (bump_token_indices Z Z None (Some 300) (Some 300) ctx_one).1 = Returned tt /\
  (demo_jump_ahead 9 ctx_one_far).1 = Raised IndexError /\
  active_idx ctx_one_far = 301 /\
  active_idx (demo_jump_ahead 9 ctx_one_far).2 = 301 /\
  end_idx (demo_jump_ahead 9 ctx_one_far).2 = end_idx ctx_one_far /\
  completion_end_idx (demo_jump_ahead 9 ctx_one_far).2
    = completion_end_idx ctx_one_far /\
  (9 ∉ tokens (demo_jump_ahead 9 ctx_one_far).2) /\
  active_idx (demo_jump_ahead 9 ctx_one_far).2 <> active_idx ctx_one_far + 1.
Proof.
  assert (Ht : tokens (demo_jump_ahead 9 ctx_one_far).2
               = (1 :: replicate 127 0) ++ (1 :: replicate 127 0))
    by (vm_compute; reflexivity).
  assert (Ha : active_idx (demo_jump_ahead 9 ctx_one_far).2 = 301)
    by (vm_compute; reflexivity).
  assert (Hb : active_idx ctx_one_far = 301) by (vm_compute; reflexivity).
  split; [exact demo_init_one|].
  split; [vm_compute; reflexivity|]. split; [vm_compute; reflexivity|].
  split; [exact Hb|]. split; [exact Ha|].
  split; [vm_compute; reflexivity|]. split; [vm_compute; reflexivity|].
  split.
  - rewrite Ht. intros Hin.
    apply elem_of_app in Hin as [Hin|Hin];
      apply elem_of_cons in Hin as [Hin|Hin]; try discriminate Hin;
      apply elem_of_replicate in Hin as [Hin _]; discriminate Hin.
  - rewrite Ha, Hb. discriminate.
Qed.

